(** * CrowdLlama: discovery and DHT server

    A shallow embedding of [internal/discovery/discovery.go] and
    [pkg/dht/dht.go], and the properties of the peer-discovery
    specification that these two files decide. Further properties of the
    two files are marked X: what the NAT classifier answers on IPv4
    addresses, the order of shutdown, the calls a discovery round makes,
    advertising, and the construction, start and queries of the server.

    Conventions.
    - A Go [string] is a [string] (a sequence of bytes); a [[]byte] is a
      [list Z] of values below 256.
    - A Go [int] is a [Z] in the 64-bit two's-complement range; additions
      wrap ([int_add]).
    - A [time.Time] without monotonic reading is the number of nanoseconds
      since the epoch, a [time.Duration] a number of nanoseconds in the
      [int64] range.
    - Calls into libp2p, the DHT and the peer manager are effects: they are
      recorded, in order, in a trace of events carried by the state. *)

From Stdlib Require Import ZArith NArith List String Ascii Bool Lia DecimalString DecimalN.
From stdpp Require Import gmap strings list fin_maps.
Import ListNotations.

Local Open Scope string_scope.
Local Open Scope Z_scope.

(** ** Go primitives *)

Module golang.

(** [strings.HasPrefix(s, prefix)]. *)
Fixpoint HasPrefix (s prefix : string) {struct prefix} : bool :=
  match prefix with
  | EmptyString => true
  | String c p =>
      match s with
      | EmptyString => false
      | String d s' => Ascii.eqb c d && HasPrefix s' p
      end
  end.

(** [strings.Contains(s, substr)]: [substr] occurs in [s] at some offset. *)
Fixpoint Contains (s substr : string) : bool :=
  HasPrefix s substr ||
  match s with
  | EmptyString => false
  | String _ s' => Contains s' substr
  end.

Definition Millisecond : Z := 1000000.
Definition Second : Z := 1000 * Millisecond.
Definition Hour : Z := 3600 * Second.
Definition minDuration : Z := - 2 ^ 63.
Definition maxDuration : Z := 2 ^ 63 - 1.

(** [t.Sub(u)] for instants without monotonic reading: the difference in
    nanoseconds, saturated to the range of [time.Duration]. *)
Definition Sub (t u : Z) : Z :=
  let d := t - u in
  if d <? minDuration then minDuration
  else if maxDuration <? d then maxDuration
  else d.

(** [time.Since(t)], at the instant [now]. *)
Definition Since (now t : Z) : Z := Sub now t.

Definition int_min : Z := - 2 ^ 63.
Definition int_max : Z := 2 ^ 63 - 1.

(** Wrap-around of a mathematical integer into the range of [int]. *)
Definition int_wrap (z : Z) : Z := (z + 2 ^ 63) mod 2 ^ 64 - 2 ^ 63.

Definition int_add (a b : Z) : Z := int_wrap (a + b).

Definition in_int (z : Z) : Prop := int_min <= z <= int_max.

Lemma int_wrap_id z : in_int z -> int_wrap z = z.
Proof.
  unfold in_int, int_min, int_max, int_wrap. intros Hz.
  rewrite Z.mod_small; lia.
Qed.

Lemma int_add_exact a b : in_int (a + b) -> int_add a b = a + b.
Proof. apply int_wrap_id. Qed.

Lemma Contains_here s substr : HasPrefix s substr = true -> Contains s substr = true.
Proof. intros H. destruct s; cbn [Contains]; rewrite H; reflexivity. Qed.

Lemma Contains_later a s substr : Contains s substr = true -> Contains (String a s) substr = true.
Proof. intros H. cbn [Contains]. rewrite H. apply orb_true_r. Qed.

Lemma HasPrefix_split u t : HasPrefix t u = true <-> exists post, t = u ++ post.
Proof.
  revert t. induction u as [|c u IH]; intros t; cbn [HasPrefix String.append].
  - split; [intros _; exists t; reflexivity | intros _; reflexivity].
  - destruct t as [|d t].
    + split; [discriminate | intros [post H]; discriminate].
    + rewrite andb_true_iff, Ascii.eqb_eq, IH.
      split; [intros [-> [post ->]]; exists post; reflexivity |].
      intros [post H]. injection H as -> ->. split; [reflexivity | exists post; reflexivity].
Qed.

(** [Contains] is the existence of a split [s = pre ++ substr ++ post]. *)
Lemma Contains_spec s substr :
  Contains s substr = true <-> exists pre post, s = pre ++ substr ++ post.
Proof.
  split.
  - induction s as [|a s IH]; cbn [Contains]; intros H.
    + rewrite orb_false_r in H. apply HasPrefix_split in H as [post H].
      exists "", post. exact H.
    + apply orb_true_iff in H as [H|H].
      * apply HasPrefix_split in H as [post H]. exists "", post. exact H.
      * destruct (IH H) as (pre & post & ->).
        exists (String a pre), post. reflexivity.
  - intros (pre & post & ->). induction pre as [|a pre IH].
    + apply Contains_here. apply HasPrefix_split. exists post. reflexivity.
    + cbn [String.append]. apply Contains_later. exact IH.
Qed.

End golang.

(** ** The DHT server ([pkg/dht/dht.go]) *)

Module dht.
Import golang.

(** [network.Direction] and its [String] method. *)
Inductive Direction := DirUnknown | DirInbound | DirOutbound.

Definition Direction_String (d : Direction) : string :=
  match d with
  | DirUnknown => "Unknown"
  | DirInbound => "Inbound"
  | DirOutbound => "Outbound"
  end.

(** What the server reads of a [network.Conn]: [RemotePeer().String()],
    [RemoteMultiaddr().String()] and [Stat().Direction]. A [peer.ID] is
    identified with its text form, the only way these files use it. *)
Record Conn := {
  RemotePeer : string;
  RemoteMultiaddr : string;
  Stat_Direction : Direction
}.

Definition isRelayConnection (addr : string) : bool :=
  Contains addr "/p2p-circuit/".

Definition isHolePunchedConnection (remoteAddr direction : string) : bool :=
  String.eqb direction "Outbound" && negb (Contains remoteAddr "/p2p-circuit/").

Definition isExternalIP (addr : string) : bool :=
  if Contains addr "/ip4/127.0.0.1/" ||
     Contains addr "/ip4/192.168." ||
     Contains addr "/ip4/10." ||
     Contains addr "/ip4/172." ||
     Contains addr "/ip6/::1/" ||
     Contains addr "/ip6/fe80:"
  then false
  else true.

(** [stats[key] = stats[key].(int) + 1]. The type assertion panics on a
    key that is not in the map: [None]. *)
Definition stats_incr (key : string) (stats : gmap string Z) : option (gmap string Z) :=
  n ← stats !! key; Some (<[key := int_add n 1]> stats).

(** The body of the loop of [GetNATStatus], for one connection. *)
Definition GetNATStatus_body (conn : Conn) (stats : gmap string Z) : option (gmap string Z) :=
  let addr := RemoteMultiaddr conn in
  let direction := Direction_String (Stat_Direction conn) in
  if isRelayConnection addr then
    stats_incr "relay_connections" stats
  else if isHolePunchedConnection addr direction then
    stats ← stats_incr "hole_punched_connections" stats;
    stats_incr "external_connections" stats
  else if isExternalIP addr then
    stats ← stats_incr "direct_connections" stats;
    stats_incr "external_connections" stats
  else
    stats_incr "local_connections" stats.

Fixpoint GetNATStatus_loop (connections : list Conn) (stats : gmap string Z) : option (gmap string Z) :=
  match connections with
  | [] => Some stats
  | conn :: rest => stats ← GetNATStatus_body conn stats; GetNATStatus_loop rest stats
  end.

Definition new_stats (total direct relay hole_punched local external : Z) : gmap string Z :=
  <["total_connections" := total]>
  (<["direct_connections" := direct]>
  (<["relay_connections" := relay]>
  (<["hole_punched_connections" := hole_punched]>
  (<["local_connections" := local]>
  (<["external_connections" := external]> ∅))))).

(** [GetNATStatus], on the connections that [s.Host.Network().Conns()]
    returned. *)
Definition GetNATStatus (connections : list Conn) : option (gmap string Z) :=
  let stats := new_stats (Z.of_nat (length connections)) 0 0 0 0 0 in
  GetNATStatus_loop connections stats.

(** The four classes of the NAT classifier, and the class that the
    conditional of [GetNATStatus] selects for a connection. *)
Inductive NATClass := Relay | HolePunched | DirectExternal | Local.

Definition NATClass_eqb (a b : NATClass) : bool :=
  match a, b with
  | Relay, Relay | HolePunched, HolePunched
  | DirectExternal, DirectExternal | Local, Local => true
  | _, _ => false
  end.

Definition natClass (conn : Conn) : NATClass :=
  let addr := RemoteMultiaddr conn in
  let direction := Direction_String (Stat_Direction conn) in
  if isRelayConnection addr then Relay
  else if isHolePunchedConnection addr direction then HolePunched
  else if isExternalIP addr then DirectExternal
  else Local.

Definition count_class (k : NATClass) (connections : list Conn) : Z :=
  Z.of_nat (length (List.filter (fun c => NATClass_eqb (natClass c) k) connections)).

(** *** The peer-manager configuration of the server

    [peermanager.Config] as the literal in [getPeerManagerConfig] fills it;
    [peermanager.DefaultConfig()] is outside these files. Durations are in
    nanoseconds. *)
Record PeerHealthConfig := {
  StalePeerTimeout : Z;
  HealthCheckInterval : Z;
  MaxFailedAttempts : Z;
  BackoffBase : Z;
  MetadataTimeout : Z;
  MaxMetadataAge : Z
}.

Record Config := {
  DiscoveryInterval : Z;
  AdvertisingInterval : Z;
  MetadataUpdateInterval : Z;
  PeerHealth : PeerHealthConfig
}.

(** [getPeerManagerConfig], given the value of the environment variable
    [CROWDLLAMA_TEST_MODE]. *)
Definition getPeerManagerConfig (CROWDLLAMA_TEST_MODE : string) (DefaultConfig : Config) : Config :=
  if String.eqb CROWDLLAMA_TEST_MODE "1"
  then {| DiscoveryInterval := 2 * Second;
          AdvertisingInterval := 5 * Second;
          MetadataUpdateInterval := 5 * Second;
          PeerHealth :=
            {| StalePeerTimeout := 30 * Second;
               HealthCheckInterval := 5 * Second;
               MaxFailedAttempts := 2;
               BackoffBase := 5 * Second;
               MetadataTimeout := 2 * Second;
               MaxMetadataAge := 30 * Second |} |}
  else DefaultConfig.

(** *** The address ranges of the specification

    The specification classifies a connection that is neither relayed nor
    outbound by the range its remote address lies in: private (RFC 1918),
    loopback or link-local. This definition follows those words, on the
    four octets of an IPv4 address; [ip4_tcp] is the text of the multiaddr
    of such an address. *)
Module NATSpec.

Record IPv4 := { o1 : N; o2 : N; o3 : N; o4 : N }.

Definition is_private (a : IPv4) : bool :=
  ((o1 a =? 10) ||
   ((o1 a =? 172) && (16 <=? o2 a) && (o2 a <=? 31)) ||
   ((o1 a =? 192) && (o2 a =? 168)))%N.

Definition is_loopback (a : IPv4) : bool := (o1 a =? 127)%N.

Definition is_link_local (a : IPv4) : bool := ((o1 a =? 169) && (o2 a =? 254))%N.

Definition in_local_range (a : IPv4) : bool :=
  is_private a || is_loopback a || is_link_local a.

Definition dec (n : N) : string := NilEmpty.string_of_uint (N.to_uint n).

Definition ip4_tcp (a : IPv4) (port : N) : string :=
  "/ip4/" ++ dec (o1 a) ++ "." ++ dec (o2 a) ++ "." ++ dec (o3 a) ++ "." ++ dec (o4 a)
  ++ "/tcp/" ++ dec port.

(** The class the specification dictates for a connection to [a]. *)
Definition classify (addr : string) (direction : Direction) (a : IPv4) : NATClass :=
  if Contains addr "/p2p-circuit/" then Relay
  else match direction with
       | DirOutbound => HolePunched
       | _ => if in_local_range a then Local else DirectExternal
       end.

Definition conn_to (a : IPv4) (port : N) (direction : Direction) : Conn :=
  {| RemotePeer := "12D3KooWA";
     RemoteMultiaddr := ip4_tcp a port;
     Stat_Direction := direction |}.

End NATSpec.

(** *** The counters of [GetNATStatus] *)

Ltac stats_lookup :=
  unfold new_stats; rewrite !lookup_insert; repeat case_decide; congruence.

Ltac stats_eq :=
  apply map_eq; intros ?; stats_lookup.

Lemma stats_incr_relay t d r h l e :
  stats_incr "relay_connections" (new_stats t d r h l e)
  = Some (new_stats t d (int_add r 1) h l e).
Proof.
  unfold stats_incr.
  assert (new_stats t d r h l e !! "relay_connections" = Some r) as -> by stats_lookup.
  cbn [mbind option_bind]. f_equal; stats_eq.
Qed.

Lemma stats_incr_hole_punched t d r h l e :
  stats_incr "hole_punched_connections" (new_stats t d r h l e)
  = Some (new_stats t d r (int_add h 1) l e).
Proof.
  unfold stats_incr.
  assert (new_stats t d r h l e !! "hole_punched_connections" = Some h) as -> by stats_lookup.
  cbn [mbind option_bind]. f_equal; stats_eq.
Qed.

Lemma stats_incr_direct t d r h l e :
  stats_incr "direct_connections" (new_stats t d r h l e)
  = Some (new_stats t (int_add d 1) r h l e).
Proof.
  unfold stats_incr.
  assert (new_stats t d r h l e !! "direct_connections" = Some d) as -> by stats_lookup.
  cbn [mbind option_bind]. f_equal; stats_eq.
Qed.

Lemma stats_incr_local t d r h l e :
  stats_incr "local_connections" (new_stats t d r h l e)
  = Some (new_stats t d r h (int_add l 1) e).
Proof.
  unfold stats_incr.
  assert (new_stats t d r h l e !! "local_connections" = Some l) as -> by stats_lookup.
  cbn [mbind option_bind]. f_equal; stats_eq.
Qed.

Lemma stats_incr_external t d r h l e :
  stats_incr "external_connections" (new_stats t d r h l e)
  = Some (new_stats t d r h l (int_add e 1)).
Proof.
  unfold stats_incr.
  assert (new_stats t d r h l e !! "external_connections" = Some e) as -> by stats_lookup.
  cbn [mbind option_bind]. f_equal; stats_eq.
Qed.

(** One iteration increments the counter of the connection's class, and
    [external_connections] with it for the two external classes. *)
Lemma GetNATStatus_body_class conn t d r h l e :
  GetNATStatus_body conn (new_stats t d r h l e)
  = Some match natClass conn with
         | Relay => new_stats t d (int_add r 1) h l e
         | HolePunched => new_stats t d r (int_add h 1) l (int_add e 1)
         | DirectExternal => new_stats t (int_add d 1) r h l (int_add e 1)
         | Local => new_stats t d r h (int_add l 1) e
         end.
Proof.
  unfold GetNATStatus_body, natClass. cbv zeta.
  destruct (isRelayConnection _); [apply stats_incr_relay|].
  destruct (isHolePunchedConnection _ _).
  { rewrite stats_incr_hole_punched. cbn. apply stats_incr_external. }
  destruct (isExternalIP _).
  { rewrite stats_incr_direct. cbn. apply stats_incr_external. }
  apply stats_incr_local.
Qed.

Lemma count_class_cons k conn rest :
  count_class k (conn :: rest)
  = (if NATClass_eqb (natClass conn) k then 1 else 0) + count_class k rest.
Proof.
  unfold count_class. cbn [List.filter].
  destruct (NATClass_eqb _ _); cbn [length]; lia.
Qed.

Lemma count_class_nonneg k connections : 0 <= count_class k connections.
Proof. unfold count_class. lia. Qed.

(** Every connection falls in exactly one class. *)
Lemma count_class_total connections :
  count_class Relay connections + count_class HolePunched connections
  + count_class DirectExternal connections + count_class Local connections
  = Z.of_nat (length connections).
Proof.
  induction connections as [|conn rest IH]; [reflexivity|].
  rewrite !count_class_cons. cbn [length].
  destruct (natClass conn); cbn [NATClass_eqb]; lia.
Qed.

Lemma count_class_le k connections :
  count_class k connections <= Z.of_nat (length connections).
Proof.
  pose proof (count_class_total connections).
  pose proof (count_class_nonneg Relay connections).
  pose proof (count_class_nonneg HolePunched connections).
  pose proof (count_class_nonneg DirectExternal connections).
  pose proof (count_class_nonneg Local connections).
  destruct k; lia.
Qed.

Lemma GetNATStatus_loop_counts connections : forall t d r h l e,
  0 <= d -> 0 <= r -> 0 <= h -> 0 <= l -> 0 <= e ->
  d + Z.of_nat (length connections) <= int_max ->
  r + Z.of_nat (length connections) <= int_max ->
  h + Z.of_nat (length connections) <= int_max ->
  l + Z.of_nat (length connections) <= int_max ->
  e + Z.of_nat (length connections) <= int_max ->
  GetNATStatus_loop connections (new_stats t d r h l e)
  = Some (new_stats t
            (d + count_class DirectExternal connections)
            (r + count_class Relay connections)
            (h + count_class HolePunched connections)
            (l + count_class Local connections)
            (e + (count_class HolePunched connections
                  + count_class DirectExternal connections))).
Proof.
  induction connections as [|conn rest IH]; intros t d r h l e Hd Hr Hh Hl He Bd Br Bh Bl Be.
  - cbn [GetNATStatus_loop]. unfold count_class. cbn. rewrite !Z.add_0_r. reflexivity.
  - cbn [GetNATStatus_loop]. rewrite GetNATStatus_body_class. cbn [mbind option_bind].
    rewrite !count_class_cons. cbn [length] in *.
    assert (Hadd : forall x, 0 <= x -> x + Z.of_nat (S (length rest)) <= int_max ->
                             int_add x 1 = x + 1).
    { intros x H0 H1. apply int_add_exact. unfold in_int, int_min, int_max in *. lia. }
    destruct (natClass conn); cbn [NATClass_eqb];
      rewrite ?Hadd by assumption;
      rewrite IH by lia; f_equal; f_equal; lia.
Qed.

Lemma new_stats_lookups t d r h l e :
  new_stats t d r h l e !! "relay_connections" = Some r /\
  new_stats t d r h l e !! "hole_punched_connections" = Some h /\
  new_stats t d r h l e !! "direct_connections" = Some d /\
  new_stats t d r h l e !! "local_connections" = Some l /\
  new_stats t d r h l e !! "external_connections" = Some e /\
  new_stats t d r h l e !! "total_connections" = Some t.
Proof. repeat split; stats_lookup. Qed.

(** C10. In the map that [GetNATStatus] returns, every connection is counted
    in exactly one of the four classes: each class counter is the number of
    connections of that class, the four counters add up to
    [total_connections], and [external_connections] is the sum of the
    hole-punched and the direct counters. The number of connections is a Go
    [int]. *)
Theorem GetNATStatus_partition (connections : list Conn) :
  Z.of_nat (length connections) <= int_max ->
  exists stats relay hole_punched direct local external total,
    GetNATStatus connections = Some stats /\
    stats !! "relay_connections" = Some relay /\
    stats !! "hole_punched_connections" = Some hole_punched /\
    stats !! "direct_connections" = Some direct /\
    stats !! "local_connections" = Some local /\
    stats !! "external_connections" = Some external /\
    stats !! "total_connections" = Some total /\
    relay = count_class Relay connections /\
    hole_punched = count_class HolePunched connections /\
    direct = count_class DirectExternal connections /\
    local = count_class Local connections /\
    relay + hole_punched + direct + local = total /\
    external = hole_punched + direct.
Proof.
  intros Hlen. unfold GetNATStatus. cbv zeta.
  rewrite GetNATStatus_loop_counts by (unfold int_max in *; lia).
  rewrite !Z.add_0_l.
  pose proof (count_class_total connections) as Htot.
  set (t := Z.of_nat (length connections)) in *.
  set (d := count_class DirectExternal connections) in *.
  set (r := count_class Relay connections) in *.
  set (h := count_class HolePunched connections) in *.
  set (l := count_class Local connections) in *.
  destruct (new_stats_lookups t d r h l (h + d)) as (Lr & Lh & Ld & Ll & Le & Lt).
  exists (new_stats t d r h l (h + d)), r, h, d, l, (h + d), t.
  repeat split; assumption || reflexivity || lia.
Qed.

Definition three_conns : list Conn :=
  [ {| RemotePeer := "12D3KooWA"; RemoteMultiaddr := "/ip4/203.0.113.7/tcp/4001/p2p/12D3KooWR/p2p-circuit/p2p/12D3KooWA";
       Stat_Direction := DirInbound |};
    {| RemotePeer := "12D3KooWB"; RemoteMultiaddr := "/ip4/198.51.100.9/tcp/9000";
       Stat_Direction := DirOutbound |};
    {| RemotePeer := "12D3KooWC"; RemoteMultiaddr := "/ip4/192.168.1.20/tcp/9000";
       Stat_Direction := DirInbound |} ].

Lemma GetNATStatus_partition_witness :
  Z.of_nat (length three_conns) <= int_max /\
  exists stats relay hole_punched direct local external total,
    GetNATStatus three_conns = Some stats /\
    stats !! "relay_connections" = Some relay /\
    stats !! "hole_punched_connections" = Some hole_punched /\
    stats !! "direct_connections" = Some direct /\
    stats !! "local_connections" = Some local /\
    stats !! "external_connections" = Some external /\
    stats !! "total_connections" = Some total /\
    relay = count_class Relay three_conns /\
    hole_punched = count_class HolePunched three_conns /\
    direct = count_class DirectExternal three_conns /\
    local = count_class Local three_conns /\
    relay + hole_punched + direct + local = total /\
    external = hole_punched + direct.
Proof.
  assert (H : Z.of_nat (length three_conns) <= int_max)
    by (unfold int_max; cbn; lia).
  split; [exact H | exact (GetNATStatus_partition three_conns H)].
Defined.

Example three_conns_classes :
  map natClass three_conns = [Relay; HolePunched; Local].
Proof. reflexivity. Qed.

(** *** The NAT classifier *)

(** The rules the conditional of [GetNATStatus] implements. *)
Lemma natClass_rules (conn : Conn) :
  let addr := RemoteMultiaddr conn in
  natClass conn =
    if Contains addr "/p2p-circuit/" then Relay
    else match Stat_Direction conn with
         | DirOutbound => HolePunched
         | _ => if isExternalIP addr then DirectExternal else Local
         end.
Proof.
  unfold natClass, isRelayConnection, isHolePunchedConnection. cbv zeta.
  destruct (Contains (RemoteMultiaddr conn) "/p2p-circuit/"); [reflexivity|].
  destruct (Stat_Direction conn); reflexivity.
Qed.

(** [isExternalIP] answers by the text of the address alone. *)
Lemma isExternalIP_false_iff (addr : string) :
  isExternalIP addr = false <->
  Contains addr "/ip4/127.0.0.1/" = true \/ Contains addr "/ip4/192.168." = true \/
  Contains addr "/ip4/10." = true \/ Contains addr "/ip4/172." = true \/
  Contains addr "/ip6/::1/" = true \/ Contains addr "/ip6/fe80:" = true.
Proof.
  unfold isExternalIP.
  destruct (Contains addr "/ip4/127.0.0.1/"), (Contains addr "/ip4/192.168."),
    (Contains addr "/ip4/10."), (Contains addr "/ip4/172."),
    (Contains addr "/ip6/::1/"), (Contains addr "/ip6/fe80:"); cbn;
    intuition discriminate.
Qed.

(** C8. The classifier does not follow the address ranges: for inbound
    connections without relay marker, the public address 172.217.0.1 is
    classified Local (every address starting with 172. is), while the
    link-local address 169.254.10.20 and the loopback address 127.0.0.2 are
    classified DirectExternal. The specification dictates the opposite
    class in each case. *)
Theorem natClass_misses_address_ranges :
  let public_172 := {| NATSpec.o1 := 172; NATSpec.o2 := 217; NATSpec.o3 := 0; NATSpec.o4 := 1 |} in
  let link_local := {| NATSpec.o1 := 169; NATSpec.o2 := 254; NATSpec.o3 := 10; NATSpec.o4 := 20 |} in
  let loopback := {| NATSpec.o1 := 127; NATSpec.o2 := 0; NATSpec.o3 := 0; NATSpec.o4 := 2 |} in
  (NATSpec.ip4_tcp public_172 4001 = "/ip4/172.217.0.1/tcp/4001" /\
   natClass (NATSpec.conn_to public_172 4001 DirInbound) = Local /\
   NATSpec.classify (NATSpec.ip4_tcp public_172 4001) DirInbound public_172 = DirectExternal) /\
  (NATSpec.ip4_tcp link_local 4001 = "/ip4/169.254.10.20/tcp/4001" /\
   natClass (NATSpec.conn_to link_local 4001 DirInbound) = DirectExternal /\
   NATSpec.classify (NATSpec.ip4_tcp link_local 4001) DirInbound link_local = Local) /\
  (NATSpec.ip4_tcp loopback 4001 = "/ip4/127.0.0.2/tcp/4001" /\
   natClass (NATSpec.conn_to loopback 4001 DirInbound) = DirectExternal /\
   NATSpec.classify (NATSpec.ip4_tcp loopback 4001) DirInbound loopback = Local).
Proof. cbv zeta. repeat split; vm_compute; reflexivity. Qed.

(** The classifier and the specification disagree on some connection. *)
Lemma natClass_not_by_ranges :
  ~ (forall a port direction,
       natClass (NATSpec.conn_to a port direction)
       = NATSpec.classify (NATSpec.ip4_tcp a port) direction a).
Proof.
  intros H.
  specialize (H {| NATSpec.o1 := 172; NATSpec.o2 := 217; NATSpec.o3 := 0; NATSpec.o4 := 1 |}
                4001%N DirInbound).
  vm_compute in H. discriminate H.
Qed.

(** *** Connection notifications

    The peer manager ([pkg/peermanager]) is outside these files: the server
    holds one and calls [RemovePeer] on it. Its state type and [RemovePeer]
    are parameters, so whatever the manager records about a peer (failure
    counter, health state, checks in flight) is part of an arbitrary
    [Manager]. What a handler does is recorded in the server's trace. *)

Inductive Event :=
| LogInfo (msg : string) (fields : list string)
| LogDebug (msg : string) (fields : list string)
| CallRemovePeer (peerID : string).

(** The [DisconnectedF] closures of the two [network.NotifyBundle]s the
    server registers: the method value [server.handlePeerDisconnected]
    ([NewDHTServerWithAddrs]) and the logging closure of [Start]. *)
Inductive DisconnectedF := server_handlePeerDisconnected | Start_DisconnectedF.

Section Server.

Variable Manager : Type.
Variable RemovePeer : Manager -> string -> Manager.

Record Server := {
  peerManager : Manager;
  notifiees : list DisconnectedF;
  trace : list Event
}.

Definition emit (e : Event) (s : Server) : Server :=
  {| peerManager := peerManager s; notifiees := notifiees s; trace := trace s ++ [e] |}.

Definition peerManager_RemovePeer (peerID : string) (s : Server) : Server :=
  {| peerManager := RemovePeer (peerManager s) peerID;
     notifiees := notifiees s;
     trace := trace s ++ [CallRemovePeer peerID] |}.

Definition handlePeerDisconnected (s : Server) (conn : Conn) : Server :=
  let peerID := RemotePeer conn in
  let remoteAddr := RemoteMultiaddr conn in
  let s := emit (LogInfo "Peer disconnected" [peerID; remoteAddr]) s in
  let s := peerManager_RemovePeer peerID s in
  emit (LogInfo "Removed peer from manager due to disconnection" [peerID]) s.

Definition call_DisconnectedF (f : DisconnectedF) (s : Server) (conn : Conn) : Server :=
  match f with
  | server_handlePeerDisconnected => handlePeerDisconnected s conn
  | Start_DisconnectedF =>
      emit (LogInfo "Peer disconnected" [RemotePeer conn; RemoteMultiaddr conn]) s
  end.

(** [h.Network().Notify(bundle)]. *)
Definition Notify (f : DisconnectedF) (s : Server) : Server :=
  {| peerManager := peerManager s; notifiees := notifiees s ++ [f]; trace := trace s |}.

(** The host delivers a disconnect to every registered notifiee in turn,
    each call returning before the next. *)
Definition notifyDisconnected (s : Server) (conn : Conn) : Server :=
  fold_left (fun s f => call_DisconnectedF f s conn) (notifiees s) s.

(** The notifiees of a server that [NewDHTServerWithAddrs] built, and that
    [Start] has or has not been called on. *)
Definition registered (started : bool) : list DisconnectedF :=
  server_handlePeerDisconnected :: (if started then [Start_DisconnectedF] else []).

Definition removals (peerID : string) (es : list Event) : nat :=
  length (List.filter (fun e => match e with
                                | CallRemovePeer p => String.eqb p peerID
                                | _ => false
                                end) es).

(** C5. The disconnect handler calls [RemovePeer] with the ID of the
    disconnected peer, whatever the state of the peer manager: the manager
    it leaves is [RemovePeer] of the one it found, and the call sits in the
    handler's own trace between its two log lines. Delivered by the host to
    a server's notifiees, before or after [Start], a disconnect makes that
    call exactly once. *)
Theorem handlePeerDisconnected_removes (pm : Manager) (log : list Event) (started : bool) (conn : Conn) :
  let s := {| peerManager := pm; notifiees := registered started; trace := log |} in
  let peerID := RemotePeer conn in
  peerManager (handlePeerDisconnected s conn) = RemovePeer pm peerID /\
  trace (handlePeerDisconnected s conn)
    = (log ++ [LogInfo "Peer disconnected" [peerID; RemoteMultiaddr conn];
               CallRemovePeer peerID;
               LogInfo "Removed peer from manager due to disconnection" [peerID]])%list /\
  peerManager (notifyDisconnected s conn) = RemovePeer pm peerID /\
  removals peerID (trace (notifyDisconnected s conn)) = S (removals peerID log).
Proof.
  cbv zeta. unfold handlePeerDisconnected, notifyDisconnected, registered.
  assert (Hr : forall es1 es2, removals (RemotePeer conn) (es1 ++ es2)%list
                               = (removals (RemotePeer conn) es1 + removals (RemotePeer conn) es2)%nat).
  { intros es1 es2. unfold removals. rewrite List.filter_app, List.length_app. reflexivity. }
  split; [reflexivity|]. split.
  { cbn. rewrite <- !app_assoc. reflexivity. }
  assert (H1 : removals (RemotePeer conn) [CallRemovePeer (RemotePeer conn)] = 1%nat).
  { unfold removals. cbn. rewrite String.eqb_refl. reflexivity. }
  destruct started;
    cbn [fold_left call_DisconnectedF emit peerManager_RemovePeer trace peerManager
         notifiees handlePeerDisconnected];
    (split; [reflexivity|]); rewrite !Hr, H1; cbn; lia.
Qed.

End Server.

(** *** [Stop] and the periodic-logging loop

    [Start] launches [startPeriodicLogging] with [go]; [Stop] runs on
    another goroutine. The two are modelled as an interleaving of their
    statements. [Stop] is [logger.Info; peerManager.Stop(); cancel();
    Host.Close()], with no wait on the logging goroutine in between. The
    loop is a [select] over the two ticker channels and [ctx.Done()]: when
    several cases are ready the runtime picks any one of them. Of the two
    loop bodies, [LogNATStatus] reads the host ([Host.Network().Conns()]),
    [LogPeerStats] reads the peer manager. Each host operation of the loop
    is recorded with whether the host was closed at that moment. *)
Module Shutdown.

Inductive MainPC := MRunning | MStopPeerManager | MCancel | MCloseHost | MReturned.
Inductive LoopPC := LSelect | LLogNATStatus | LLogPeerStats | LExited.

Record State := {
  main : MainPC;
  loop : LoopPC;
  natTick : bool;
  statsTick : bool;
  done : bool;
  hostClosed : bool;
  hostOps : list bool
}.

(** What the scheduler lets happen next. *)
Inductive Label :=
| Main
| NatTicker
| StatsTicker
| Select_natTicker
| Select_statsTicker
| Select_Done
| Loop.

Definition is_loop_label (l : Label) : bool :=
  match l with
  | Select_natTicker | Select_statsTicker | Select_Done | Loop => true
  | _ => false
  end.

Definition init : State :=
  {| main := MRunning; loop := LSelect; natTick := false; statsTick := false;
     done := false; hostClosed := false; hostOps := [] |}.

Definition exec (l : Label) (s : State) : option State :=
  match l with
  | Main =>
      match main s with
      | MRunning =>
          Some {| main := MStopPeerManager; loop := loop s; natTick := natTick s;
                  statsTick := statsTick s; done := done s; hostClosed := hostClosed s;
                  hostOps := hostOps s |}
      | MStopPeerManager =>
          Some {| main := MCancel; loop := loop s; natTick := natTick s;
                  statsTick := statsTick s; done := done s; hostClosed := hostClosed s;
                  hostOps := hostOps s |}
      | MCancel =>
          Some {| main := MCloseHost; loop := loop s; natTick := natTick s;
                  statsTick := statsTick s; done := true; hostClosed := hostClosed s;
                  hostOps := hostOps s |}
      | MCloseHost =>
          Some {| main := MReturned; loop := loop s; natTick := natTick s;
                  statsTick := statsTick s; done := done s; hostClosed := true;
                  hostOps := hostOps s |}
      | MReturned => None
      end
  | NatTicker =>
      Some {| main := main s; loop := loop s; natTick := true;
              statsTick := statsTick s; done := done s; hostClosed := hostClosed s;
              hostOps := hostOps s |}
  | StatsTicker =>
      Some {| main := main s; loop := loop s; natTick := natTick s;
              statsTick := true; done := done s; hostClosed := hostClosed s;
              hostOps := hostOps s |}
  | Select_natTicker =>
      match loop s, natTick s with
      | LSelect, true =>
          Some {| main := main s; loop := LLogNATStatus; natTick := false;
                  statsTick := statsTick s; done := done s; hostClosed := hostClosed s;
                  hostOps := hostOps s |}
      | _, _ => None
      end
  | Select_statsTicker =>
      match loop s, statsTick s with
      | LSelect, true =>
          Some {| main := main s; loop := LLogPeerStats; natTick := natTick s;
                  statsTick := false; done := done s; hostClosed := hostClosed s;
                  hostOps := hostOps s |}
      | _, _ => None
      end
  | Select_Done =>
      match loop s, done s with
      | LSelect, true =>
          Some {| main := main s; loop := LExited; natTick := natTick s;
                  statsTick := statsTick s; done := done s; hostClosed := hostClosed s;
                  hostOps := hostOps s |}
      | _, _ => None
      end
  | Loop =>
      match loop s with
      | LLogNATStatus =>
          Some {| main := main s; loop := LSelect; natTick := natTick s;
                  statsTick := statsTick s; done := done s; hostClosed := hostClosed s;
                  hostOps := hostOps s ++ [hostClosed s] |}
      | LLogPeerStats =>
          Some {| main := main s; loop := LSelect; natTick := natTick s;
                  statsTick := statsTick s; done := done s; hostClosed := hostClosed s;
                  hostOps := hostOps s |}
      | _ => None
      end
  end.

Fixpoint run (ls : list Label) (s : State) : option State :=
  match ls with
  | [] => Some s
  | l :: ls => s' ← exec l s; run ls s'
  end.

Definition reachable (s : State) : Prop := exists ls, run ls init = Some s.

(** The schedule on which [Stop] returns while the loop is about to log the
    NAT status: a tick, the loop's select takes it, then [Stop] runs to its
    end. *)
Definition tick_then_Stop : list Label :=
  [NatTicker; Select_natTicker; Main; Main; Main; Main].

Definition stopped_mid_iteration : State :=
  {| main := MReturned; loop := LLogNATStatus; natTick := false; statsTick := false;
     done := true; hostClosed := true; hostOps := [] |}.

Example run_tick_then_Stop : run tick_then_Stop init = Some stopped_mid_iteration.
Proof. reflexivity. Qed.

Example run_tick_then_Stop_then_log :
  hostOps <$> run (tick_then_Stop ++ [Loop]) init = Some [true].
Proof. reflexivity. Qed.

Definition cancelled_before_close (s : State) : Prop :=
  (main s = MCloseHost -> done s = true) /\
  (main s = MReturned -> done s = true /\ hostClosed s = true).

Lemma exec_cancelled_before_close l s s' :
  exec l s = Some s' -> cancelled_before_close s -> cancelled_before_close s'.
Proof.
  unfold cancelled_before_close.
  destruct l, s as [m lp nt st d hc ops]; cbn;
    repeat match goal with
           | |- context [match ?x with _ => _ end] => destruct x
           end;
    intros [= <-] [H1 H2]; cbn in *; split; intros; try discriminate;
    auto.
Qed.

Lemma run_cancelled_before_close ls : forall s s',
  run ls s = Some s' -> cancelled_before_close s -> cancelled_before_close s'.
Proof.
  induction ls as [|l ls IH]; intros s s'; cbn [run].
  - intros [= <-]. auto.
  - destruct (exec l s) as [s1|] eqn:E; cbn; [|discriminate].
    intros Hrun Hs. eapply IH; [exact Hrun|]. eapply exec_cancelled_before_close; eauto.
Qed.

(** Once the context is cancelled the loop can leave within two of its own
    statements: finish the body it is in, then take the [Done] case. *)
Lemma loop_can_exit s :
  done s = true ->
  exists ls s', forallb is_loop_label ls = true /\ (length ls <= 2)%nat /\
                run ls s = Some s' /\ loop s' = LExited.
Proof.
  destruct s as [m lp nt st d hc ops]. cbn. intros ->.
  destruct lp.
  - eexists [Select_Done], _. cbn. repeat split; lia.
  - eexists [Loop; Select_Done], _. cbn. repeat split; lia.
  - eexists [Loop; Select_Done], _. cbn. repeat split; lia.
  - eexists [], _. cbn. repeat split; lia.
Qed.

(** C9, as stated, fails: there is a reachable state in which [Stop] has
    returned and the periodic-logging loop has not exited, and a reachable
    state in which the loop has operated on the closed host. *)
Lemma Stop_does_not_wait :
  ~ (forall s, reachable s -> main s = MReturned ->
               loop s = LExited /\ ~ In true (hostOps s)).
Proof.
  intros H.
  destruct (H stopped_mid_iteration) as [Hloop _].
  - exists tick_then_Stop. reflexivity.
  - reflexivity.
  - discriminate Hloop.
Qed.

(** The states in which [Stop] has not yet closed the host: it has not
    returned, the host is open, and once it stands at [Host.Close] the
    context is cancelled. *)
Definition before_close (s : State) : Prop :=
  main s <> MReturned /\ hostClosed s = false /\ (main s = MCloseHost -> done s = true).

Lemma exec_before_close l s s' :
  exec l s = Some s' -> before_close s -> main s <> MCloseHost -> before_close s'.
Proof.
  unfold before_close.
  destruct l, s as [m lp nt st d hc ops]; cbn;
    repeat match goal with
           | |- context [match ?x with _ => _ end] => destruct x
           end;
    intros [= <-] (H1 & H2 & H3) H4; cbn in *;
    repeat split; intros; try discriminate; try congruence; auto.
Qed.

(** Every run that takes [Stop] to its end passes a state in which [Stop]
    stands at [Host.Close] with the context cancelled and the host still
    open. *)
Lemma run_passes_cancelled ls : forall s0 s,
  before_close s0 -> run ls s0 = Some s -> main s = MReturned ->
  exists ls1 ls2 s1,
    ls = (ls1 ++ ls2)%list /\ run ls1 s0 = Some s1 /\ run ls2 s1 = Some s /\
    main s1 = MCloseHost /\ done s1 = true /\ hostClosed s1 = false.
Proof.
  induction ls as [|l ls IH]; intros s0 s Hb; cbn [run].
  - intros [= <-] Hm. destruct Hb as (Hb & _). contradiction.
  - intros Hrun Hm.
    destruct (main s0) eqn:Em;
      try (destruct (exec l s0) as [s'|] eqn:E; cbn in Hrun; [|discriminate Hrun];
           assert (Hb' : before_close s')
             by (eapply exec_before_close; [exact E | exact Hb | rewrite Em; discriminate]);
           destruct (IH s' s Hb' Hrun Hm) as (ls1 & ls2 & s1 & -> & H1 & H2 & H3 & H4 & H5);
           exists (l :: ls1), ls2, s1; cbn [run app]; rewrite E; cbn;
           repeat split; assumption).
    exists [], (l :: ls), s0. destruct Hb as (_ & Hc & Hd).
    cbn [run app]. repeat split; auto.
Qed.

(** C9, amended. When [Stop] has returned, the shared context is cancelled
    and the host is closed, in that order: the run has passed a state in
    which [Stop] stood at [Host.Close] with the context already cancelled
    and the host still open. The periodic-logging loop is not waited for,
    but from then on it can exit within two of its own statements. *)
Theorem Stop_cancels_then_closes (ls : list Label) (s : State) :
  run ls init = Some s -> main s = MReturned ->
  (exists ls1 ls2 s1,
     ls = (ls1 ++ ls2)%list /\ run ls1 init = Some s1 /\ run ls2 s1 = Some s /\
     main s1 = MCloseHost /\ done s1 = true /\ hostClosed s1 = false) /\
  done s = true /\ hostClosed s = true /\
  exists ls' s', forallb is_loop_label ls' = true /\ (length ls' <= 2)%nat /\
                 run ls' s = Some s' /\ loop s' = LExited.
Proof.
  intros Hrun Hmain.
  assert (Hinv : cancelled_before_close s).
  { eapply run_cancelled_before_close; [exact Hrun|].
    split; cbn; discriminate. }
  destruct Hinv as [_ Hret]. destruct (Hret Hmain) as [Hd Hc].
  split.
  { apply (run_passes_cancelled ls init s); [|exact Hrun|exact Hmain].
    unfold before_close, init. cbn. repeat split; discriminate. }
  repeat split; [exact Hd | exact Hc | apply loop_can_exit; exact Hd].
Qed.

Lemma Stop_cancels_then_closes_witness :
  run tick_then_Stop init = Some stopped_mid_iteration /\
  main stopped_mid_iteration = MReturned /\
  ((exists ls1 ls2 s1,
      tick_then_Stop = (ls1 ++ ls2)%list /\ run ls1 init = Some s1 /\
      run ls2 s1 = Some stopped_mid_iteration /\
      main s1 = MCloseHost /\ done s1 = true /\ hostClosed s1 = false) /\
   done stopped_mid_iteration = true /\ hostClosed stopped_mid_iteration = true /\
   exists ls' s', forallb is_loop_label ls' = true /\ (length ls' <= 2)%nat /\
                  run ls' stopped_mid_iteration = Some s' /\ loop s' = LExited).
Proof.
  assert (Hr : run tick_then_Stop init = Some stopped_mid_iteration) by reflexivity.
  assert (Hm : main stopped_mid_iteration = MReturned) by reflexivity.
  exact (conj Hr (conj Hm (Stop_cancels_then_closes tick_then_Stop stopped_mid_iteration Hr Hm))).
Defined.

(** **** The order of shutdown *)

(** What holds in every state the two goroutines can reach: [cancel] has
    run exactly when [Stop] is at [Host.Close] or beyond, the host is
    closed exactly when [Stop] is through, the loop has left only through
    the [Done] case, and it has read a closed host only then. *)
Definition shutdown_order (s : State) : Prop :=
  (done s = true <-> main s = MCloseHost \/ main s = MReturned) /\
  (hostClosed s = true <-> main s = MReturned) /\
  (loop s = LExited -> done s = true) /\
  (In true (hostOps s) -> main s = MReturned).

Lemma exec_shutdown_order l s s' :
  exec l s = Some s' -> shutdown_order s -> shutdown_order s'.
Proof.
  unfold shutdown_order.
  destruct l, s as [m lp nt st d hc ops]; cbn;
    repeat match goal with
           | |- context [match ?x with _ => _ end] => destruct x
           end;
    intros [= <-] (H1 & H2 & H3 & H4); cbn in *;
    rewrite ?in_app_iff in *; cbn [In] in *;
    try solve [intuition (discriminate || congruence)].
Qed.

Lemma run_shutdown_order ls : forall s s',
  run ls s = Some s' -> shutdown_order s -> shutdown_order s'.
Proof.
  induction ls as [|l ls IH]; intros s s'; cbn [run].
  - intros [= <-]. auto.
  - destruct (exec l s) as [s1|] eqn:E; cbn; [|discriminate].
    intros Hrun Hs. eapply IH; [exact Hrun|]. eapply exec_shutdown_order; eauto.
Qed.

(** X3. In every state that [Stop] and the periodic-logging loop can reach
    together: the loop has exited only if the context was cancelled; the
    host is closed only after the cancellation; and the loop has read a
    closed host only after the cancellation. *)
Theorem loop_exits_only_by_cancel (s : State) :
  reachable s ->
  (loop s = LExited -> done s = true) /\
  (hostClosed s = true -> done s = true) /\
  (In true (hostOps s) -> done s = true /\ hostClosed s = true).
Proof.
  intros [ls Hrun].
  assert (Hinv : shutdown_order s).
  { eapply run_shutdown_order; [exact Hrun|].
    unfold shutdown_order, init. cbn. repeat split; intros; try discriminate; try tauto.
    destruct H; discriminate. }
  destruct Hinv as (H1 & H2 & H3 & H4).
  split; [exact H3|]. split.
  - intros Hc. apply H1. right. apply H2. exact Hc.
  - intros Hin. apply H4 in Hin. split; [apply H1; right; exact Hin | apply H2; exact Hin].
Qed.

Definition loop_exited : State :=
  {| main := MReturned; loop := LExited; natTick := false; statsTick := false;
     done := true; hostClosed := true; hostOps := [true] |}.

Lemma loop_exits_only_by_cancel_witness :
  reachable loop_exited /\
  (loop loop_exited = LExited -> done loop_exited = true) /\
  (hostClosed loop_exited = true -> done loop_exited = true) /\
  (In true (hostOps loop_exited) -> done loop_exited = true /\ hostClosed loop_exited = true).
Proof.
  assert (Hr : reachable loop_exited)
    by (exists (tick_then_Stop ++ [Loop; Select_Done])%list; reflexivity).
  exact (conj Hr (loop_exits_only_by_cancel loop_exited Hr)).
Defined.

End Shutdown.

(** *** The classifier on plain IPv4 addresses

    What [isExternalIP] and the conditional of [GetNATStatus] answer on the
    text [/ip4/a.b.c.d/tcp/port], for all octets and ports. *)

Module IPv4Text.
Import NATSpec.

Definition is_digit (c : ascii) : bool :=
  ((48 <=? N_of_ascii c) && (N_of_ascii c <=? 57))%N.

Fixpoint all_chars (P : ascii -> bool) (s : string) : bool :=
  match s with
  | EmptyString => true
  | String c s' => P c && all_chars P s'
  end.

Fixpoint has_char (x : ascii) (s : string) : bool :=
  match s with
  | EmptyString => false
  | String c s' => Ascii.eqb c x || has_char x s'
  end.

Lemma append_String c s t : String c s ++ t = String c (s ++ t).
Proof. reflexivity. Qed.

Lemma has_char_app x s t : has_char x (s ++ t) = has_char x s || has_char x t.
Proof.
  induction s as [|c s IH]; [reflexivity|].
  rewrite append_String. cbn [has_char]. rewrite IH, orb_assoc. reflexivity.
Qed.

Lemma dec_digits n : all_chars is_digit (dec n) = true.
Proof.
  unfold dec. induction (N.to_uint n); cbn; auto.
Qed.

Lemma digits_has_char x s : is_digit x = false -> all_chars is_digit s = true -> has_char x s = false.
Proof.
  intros Hx. induction s as [|c s IH]; cbn [all_chars has_char]; [reflexivity|].
  intros [Hc Hs]%andb_true_iff. rewrite (IH Hs), orb_false_r.
  destruct (Ascii.eqb_spec c x) as [->|]; [congruence|reflexivity].
Qed.

Lemma dec_eqb n m : String.eqb (dec n) (dec m) = (n =? m)%N.
Proof.
  destruct (N.eqb_spec n m) as [->|Hne]; [apply String.eqb_refl|].
  apply String.eqb_neq. intros E. apply Hne. unfold dec in E.
  apply DecimalN.Unsigned.to_uint_inj.
  pose proof (NilEmpty.usu (N.to_uint n)) as H1.
  pose proof (NilEmpty.usu (N.to_uint m)) as H2.
  rewrite E in H1. congruence.
Qed.

(** Comparing the text of an octet with the numerals of the patterns. *)
Ltac dec_numerals :=
  change "10" with (dec 10); change "172" with (dec 172); change "192" with (dec 192);
  change "168" with (dec 168); change "127" with (dec 127); change "0" with (dec 0);
  change "1" with (dec 1);
  rewrite !dec_eqb.

Lemma HasPrefix_has_char x s pat :
  HasPrefix s pat = true -> has_char x pat = true -> has_char x s = true.
Proof.
  revert s. induction pat as [|c p IH]; intros s; cbn [HasPrefix has_char]; [discriminate 2|].
  destruct s as [|d s]; [discriminate|].
  intros [Hc Hp]%andb_true_iff. apply Ascii.eqb_eq in Hc. subst d.
  cbn [has_char]. intros [H|H]%orb_true_iff; [rewrite H; reflexivity|].
  rewrite (IH s Hp H). apply orb_true_r.
Qed.

Lemma Contains_has_char x s pat :
  has_char x pat = true -> has_char x s = false -> Contains s pat = false.
Proof.
  intros Hp. induction s as [|c s IH]; cbn [Contains has_char]; intros Hs.
  - rewrite orb_false_r. destruct (HasPrefix "" pat) eqn:E; [|reflexivity].
    pose proof (HasPrefix_has_char x _ _ E Hp) as H. discriminate H.
  - apply orb_false_iff in Hs as [Hc Hs]. rewrite (IH Hs), orb_false_r.
    destruct (HasPrefix (String c s) pat) eqn:E; [|reflexivity].
    pose proof (HasPrefix_has_char x _ _ E Hp) as H. cbn [has_char] in H.
    rewrite Hc, Hs in H. discriminate H.
Qed.

Lemma HasPrefix_digits (c : ascii) (d' : string) : forall (d r p : string),
  is_digit c = false ->
  all_chars is_digit d = true -> all_chars is_digit d' = true ->
  HasPrefix (d ++ String c r) (d' ++ String c p) = String.eqb d d' && HasPrefix r p.
Proof.
  induction d' as [|y d' IH]; intros d r p Hc Hd Hd'.
  - destruct d as [|x d]; rewrite ?append_String; change ("" ++ String c p) with (String c p);
      [change ("" ++ String c r) with (String c r)|]; cbn [HasPrefix String.eqb].
    + rewrite Ascii.eqb_refl. reflexivity.
    + cbn [all_chars] in Hd. apply andb_true_iff in Hd as [Hx _].
      destruct (Ascii.eqb_spec c x) as [->|]; [congruence|reflexivity].
  - cbn [all_chars] in Hd'. apply andb_true_iff in Hd' as [Hy Hd'].
    destruct d as [|x d]; rewrite ?append_String;
      [change ("" ++ String c r) with (String c r)|]; cbn [HasPrefix String.eqb].
    + destruct (Ascii.eqb_spec y c) as [->|]; [congruence|reflexivity].
    + cbn [all_chars] in Hd. apply andb_true_iff in Hd as [Hx Hd].
      rewrite IH by assumption. rewrite (Ascii.eqb_sym y x), andb_assoc. reflexivity.
Qed.

(** The text of an IPv4 multiaddr over digit strings. *)
Definition ip4_text (d1 d2 d3 d4 dp : string) : string :=
  "/ip4/" ++ d1 ++ "." ++ d2 ++ "." ++ d3 ++ "." ++ d4 ++ "/tcp/" ++ dp.

Section Digits.

Variables d1 d2 d3 d4 dp : string.
Hypothesis D1 : all_chars is_digit d1 = true.
Hypothesis D2 : all_chars is_digit d2 = true.
Hypothesis D3 : all_chars is_digit d3 = true.
Hypothesis D4 : all_chars is_digit d4 = true.
Hypothesis Dp : all_chars is_digit dp = true.

Lemma ip4_text_shape :
  ip4_text d1 d2 d3 d4 dp
  = String "/" (String "i" (String "p" (String "4" (String "/"
      (d1 ++ String "." (d2 ++ String "." (d3 ++ String "." (d4 ++ String "/" ("tcp/" ++ dp))))))))).
Proof. reflexivity. Qed.

Lemma ip4_text_no_char x :
  is_digit x = false ->
  has_char x "/ip4/.tcp" = false ->
  has_char x (ip4_text d1 d2 d3 d4 dp) = false.
Proof.
  intros Hx Hc. rewrite ip4_text_shape.
  cbn [has_char] in Hc |- *.
  repeat (apply orb_false_iff in Hc as [? Hc]).
  repeat first [rewrite has_char_app | progress cbn [has_char]].
  rewrite !(digits_has_char x) by assumption.
  repeat match goal with H : Ascii.eqb _ x = false |- _ => rewrite H; clear H end.
  reflexivity.
Qed.

Lemma Contains_cons c s pat :
  Contains (String c s) pat = HasPrefix (String c s) pat || Contains s pat.
Proof. reflexivity. Qed.

(** A pattern that starts with [/i] can only match at the start. *)
Lemma Contains_ip4_text pat :
  Contains (ip4_text d1 d2 d3 d4 dp) (String "/" (String "i" pat))
  = HasPrefix (ip4_text d1 d2 d3 d4 dp) (String "/" (String "i" pat)).
Proof.
  rewrite ip4_text_shape. rewrite (Contains_cons "/"), (Contains_cons "i").
  match goal with |- _ || (_ || ?c) = _ => assert (E : c = false) end.
  { apply (Contains_has_char "i"); [cbn; reflexivity|].
    repeat first [rewrite has_char_app | progress cbn [has_char]].
    rewrite !(digits_has_char "i") by (assumption || reflexivity). reflexivity. }
  rewrite E. cbn [HasPrefix].
  replace (Ascii.eqb "/" "i") with false by reflexivity.
  cbn [andb orb]. rewrite orb_false_r. reflexivity.
Qed.

Lemma HasPrefix_ip4_text pat :
  HasPrefix (ip4_text d1 d2 d3 d4 dp) ("/ip4/" ++ pat)
  = HasPrefix (d1 ++ String "." (d2 ++ String "." (d3 ++ String "." (d4 ++ String "/" ("tcp/" ++ dp)))))
      pat.
Proof. reflexivity. Qed.

Lemma HasPrefix_ip4_text_ip6 pat :
  HasPrefix (ip4_text d1 d2 d3 d4 dp) ("/ip6/" ++ pat) = false.
Proof. reflexivity. Qed.

Lemma isExternalIP_ip4_text :
  isExternalIP (ip4_text d1 d2 d3 d4 dp)
  = negb (String.eqb d1 "10" || String.eqb d1 "172"
          || (String.eqb d1 "192" && String.eqb d2 "168")
          || (String.eqb d1 "127" && String.eqb d2 "0" && String.eqb d3 "0"
              && String.eqb d4 "1")).
Proof.
  unfold isExternalIP. rewrite !Contains_ip4_text.
  change "/ip4/127.0.0.1/"
    with ("/ip4/" ++ ("127" ++ String "." ("0" ++ String "." ("0" ++ String "." ("1" ++ String "/" ""))))).
  change "/ip4/192.168." with ("/ip4/" ++ ("192" ++ String "." ("168" ++ String "." ""))).
  change "/ip4/10." with ("/ip4/" ++ ("10" ++ String "." "")).
  change "/ip4/172." with ("/ip4/" ++ ("172" ++ String "." "")).
  change "/ip6/::1/" with ("/ip6/" ++ "::1/").
  change "/ip6/fe80:" with ("/ip6/" ++ "fe80:").
  rewrite !HasPrefix_ip4_text, !HasPrefix_ip4_text_ip6.
  rewrite !HasPrefix_digits by (assumption || reflexivity).
  cbn [HasPrefix]. rewrite !andb_true_r, !orb_false_r.
  destruct (String.eqb d1 "10"), (String.eqb d1 "172"), (String.eqb d1 "192"),
    (String.eqb d1 "127"), (String.eqb d2 "168"), (String.eqb d2 "0"),
    (String.eqb d3 "0"), (String.eqb d4 "1"); reflexivity.
Qed.

End Digits.

Lemma ip4_tcp_text a port :
  ip4_tcp a port = ip4_text (dec (o1 a)) (dec (o2 a)) (dec (o3 a)) (dec (o4 a)) (dec port).
Proof. reflexivity. Qed.

(** X1. On the multiaddr of a plain IPv4 address, [/ip4/a.b.c.d/tcp/port],
    [isExternalIP] is decided by the leading octets alone: the address is
    not external exactly when its first octet is 10 or 172, or its first
    two octets are 192.168, or it is 127.0.0.1. *)
Theorem isExternalIP_ip4_tcp (a : IPv4) (port : N) :
  isExternalIP (ip4_tcp a port)
  = negb ((o1 a =? 10) || (o1 a =? 172) || ((o1 a =? 192) && (o2 a =? 168))
          || ((o1 a =? 127) && (o2 a =? 0) && (o3 a =? 0) && (o4 a =? 1)))%N.
Proof.
  rewrite ip4_tcp_text, isExternalIP_ip4_text by apply dec_digits.
  dec_numerals. reflexivity.
Qed.

Lemma ip4_tcp_not_relay a port : isRelayConnection (ip4_tcp a port) = false.
Proof.
  unfold isRelayConnection. apply (Contains_has_char "-"); [reflexivity|].
  rewrite ip4_tcp_text. apply ip4_text_no_char; try apply dec_digits; reflexivity.
Qed.

(** X2. A connection to a plain IPv4 address is never counted as relayed;
    an outbound one is counted as hole-punched whatever the address, a
    private or loopback one included; any other is counted local or direct
    by the leading octets of the address. *)
Theorem natClass_ip4_tcp (a : IPv4) (port : N) (direction : Direction) :
  natClass (conn_to a port direction)
  = match direction with
    | DirOutbound => HolePunched
    | _ => if ((o1 a =? 10) || (o1 a =? 172) || ((o1 a =? 192) && (o2 a =? 168))
               || ((o1 a =? 127) && (o2 a =? 0) && (o3 a =? 0) && (o4 a =? 1)))%N
           then Local else DirectExternal
    end.
Proof.
  unfold natClass, conn_to, isHolePunchedConnection. cbv zeta.
  cbn [RemoteMultiaddr Stat_Direction].
  fold (isRelayConnection (ip4_tcp a port)).
  rewrite ip4_tcp_not_relay, ip4_tcp_text, isExternalIP_ip4_text by apply dec_digits.
  dec_numerals.
  destruct direction; cbn [Direction_String negb andb];
    try reflexivity;
    match goal with |- context [negb ?b] => destruct b end; reflexivity.
Qed.

End IPv4Text.

End dht.

(** ** Discovery ([internal/discovery/discovery.go]) *)

Module discovery.
Import golang.

(** *** Errors, time, bytes *)

(** A Go [error]: [io.EOF], an error made from a message, or an error
    wrapped by [fmt.Errorf("...: %w", err)]. *)
Inductive error :=
| EOF
| Err (msg : string)
| Wrap (msg : string) (err : error).

Fixpoint Error (e : error) : string :=
  match e with
  | EOF => "EOF"
  | Err msg => msg
  | Wrap msg err => msg ++ ": " ++ Error err
  end.

(** [[]byte(s)]. *)
Fixpoint bytes_of_string (s : string) : list Z :=
  match s with
  | EmptyString => []
  | String c s' => Z.of_N (N_of_ascii c) :: bytes_of_string s'
  end.

(** [len(b)] as an [int]. *)
Definition len {A} (l : list A) : Z := Z.of_nat (length l).

(** *** Varints, multihashes, CIDs

    [varint.PutUvarint], [multihash.Sum] at the code [IDENTITY] and
    [cid.NewCidV1] are library functions (go-varint, go-multihash, go-cid);
    they are embedded here as far as [GetPeerNamespaceCID] runs them. *)

(** The loop of [PutUvarint]; a [uint64] takes at most ten rounds. *)
Fixpoint PutUvarint_loop (rounds : nat) (x : Z) : list Z :=
  match rounds with
  | O => []
  | S rounds =>
      if 128 <=? x
      then Z.lor (x mod 256) 128 :: PutUvarint_loop rounds (Z.shiftr x 7)
      else [x]
  end.

Definition PutUvarint (x : Z) : list Z := PutUvarint_loop 10 (x mod 2 ^ 64).

Definition IDENTITY : Z := 0.
Definition Raw : Z := 85.

Definition ErrLenTooLarge : error :=
  Err "requested length was too large for digest".

(** [multihash.Sum(data, IDENTITY, length)]: the identity hasher returns
    what was written to it, and its size is the size of that. *)
Definition Sum_IDENTITY (data : list Z) (length : Z) : list Z + error :=
  let sum := data in
  let length := if length <? 0 then len sum else length in
  if len sum <? length then inr ErrLenTooLarge
  else if negb (length =? len sum)
       then inr (Err "the length of the identity hash must be equal to the length of the data")
       else inl (PutUvarint IDENTITY ++ PutUvarint length ++ sum)%list.

(** [cid.NewCidV1(codecType, mhash)]; a [cid.Cid] is its byte string. *)
Definition NewCidV1 (codecType : Z) (mhash : list Z) : list Z :=
  (PutUvarint 1 ++ PutUvarint codecType ++ mhash)%list.

(** [cid.Undef]. *)
Definition Undef : list Z := [].

Section Namespace.

(** [crowdllama.PeerNamespace], a constant of a package outside these
    files. *)
Variable PeerNamespace : string.

Definition GetPeerNamespaceCID : list Z * option error :=
  let namespace := PeerNamespace in
  match Sum_IDENTITY (bytes_of_string namespace) (-1) with
  | inr err => (Undef, Some (Wrap "failed to create multihash for namespace" err))
  | inl mh => (NewCidV1 Raw mh, None)
  end.

End Namespace.

(** The ten rounds are enough for every [uint64]: more rounds give the same
    bytes. *)
Lemma PutUvarint_loop_enough (n : nat) : forall (m : nat) (x : Z),
  0 <= x < 2 ^ (7 * Z.of_nat n) -> (n <= m)%nat -> (0 < n)%nat ->
  PutUvarint_loop n x = PutUvarint_loop m x.
Proof.
  induction n as [|n IH]; intros m x Hx Hnm Hn; [lia|].
  destruct m as [|m]; [lia|]. cbn [PutUvarint_loop].
  destruct (128 <=? x) eqn:E; [|reflexivity].
  apply Z.leb_le in E. f_equal.
  destruct n as [|n].
  - cbn in Hx. lia.
  - apply IH; [|lia|lia].
    rewrite Z.shiftr_div_pow2 by lia. split.
    + apply Z.div_pos; lia.
    + apply Z.div_lt_upper_bound; [lia|].
      replace (7 * Z.of_nat (S (S n))) with (7 + 7 * Z.of_nat (S n)) in Hx by lia.
      rewrite Z.pow_add_r in Hx by lia. lia.
Qed.

Lemma PutUvarint_small (x : Z) : 0 <= x < 128 -> PutUvarint x = [x].
Proof.
  intros Hx. unfold PutUvarint. rewrite Z.mod_small by lia.
  cbn [PutUvarint_loop]. destruct (128 <=? x) eqn:E; [apply Z.leb_le in E; lia|reflexivity].
Qed.

Lemma len_nonneg {A} (l : list A) : 0 <= len l.
Proof. unfold len. lia. Qed.

Lemma Sum_IDENTITY_total (data : list Z) :
  Sum_IDENTITY data (-1) = inl (PutUvarint IDENTITY ++ PutUvarint (len data) ++ data)%list.
Proof.
  unfold Sum_IDENTITY. cbv zeta.
  replace (-1 <? 0) with true by reflexivity.
  rewrite Z.ltb_irrefl, Z.eqb_refl. reflexivity.
Qed.

(** C7. [GetPeerNamespaceCID] always succeeds, and its result is a function
    of the namespace constant alone: the CIDv1 with the raw codec over the
    identity multihash of the namespace string, that is the bytes 1, 0x55
    (version, codec), 0 (identity), the varint of the length, and the
    namespace itself. *)
Theorem GetPeerNamespaceCID_total (PeerNamespace : string) :
  let data := bytes_of_string PeerNamespace in
  Sum_IDENTITY data (-1) = inl ([IDENTITY] ++ PutUvarint (len data) ++ data)%list /\
  GetPeerNamespaceCID PeerNamespace
  = (NewCidV1 Raw ([IDENTITY] ++ PutUvarint (len data) ++ data)%list, None) /\
  fst (GetPeerNamespaceCID PeerNamespace)
  = ([1; 85; 0] ++ PutUvarint (len data) ++ data)%list.
Proof.
  cbv zeta. unfold GetPeerNamespaceCID. rewrite Sum_IDENTITY_total.
  repeat split.
Qed.

Example GetPeerNamespaceCID_example :
  GetPeerNamespaceCID "crowdllama-ns"
  = ([1; 85; 0; 13; 99; 114; 111; 119; 100; 108; 108; 97; 109; 97; 45; 110; 115], None).
Proof. reflexivity. Qed.

Lemma PutUvarint_rounds (x : Z) (m : nat) :
  (10 <= m)%nat -> PutUvarint_loop m (x mod 2 ^ 64) = PutUvarint x.
Proof.
  intros Hm. unfold PutUvarint. symmetry.
  apply PutUvarint_loop_enough; [|exact Hm|lia].
  pose proof (Z.mod_pos_bound x (2 ^ 64) ltac:(lia)) as Hx.
  split; [lia|]. eapply Z.lt_le_trans; [apply Hx|].
  apply Z.pow_le_mono_r; lia.
Qed.

(** *** The world of the discoverer

    Calls into the host, the DHT and the peer manager are effects on a
    [World]: the wall clock, the peer manager behind the interface value
    (or [None] for a nil interface), and the trace of the calls made so far.
    What the network answers is decided outside the program: the host and
    the DHT are functions of the world they are called in. *)

Inductive Level := Debug | Info | Warn | ErrorLevel.

Record AddrInfo := { ID : string; Addrs : list string }.

(** What a stream gives to successive [Read] calls until one returns an
    error: each read takes some time and returns some bytes. A read
    deadline that expires, a reset and the end of the stream are all
    errors of the last read. *)
Inductive Stream :=
| Chunk (elapsed : N) (data : list Z) (rest : Stream)
| Last (elapsed : N) (data : list Z) (readErr : error).

Inductive Event :=
| Log (level : Level) (msg : string) (peer_id : string)
| Sleep (d : Z)
| CallIsPeerUnhealthy (peerID : string)
| CallMarkPeerAsRecentlyRemoved (peerID : string)
| NewStream (peerID : string)
| SetReadDeadline (deadline : Z)
| Read (n : Z)
| Close
| FindProvidersAsync (key : list Z) (count : Z)
| Connect (peer : AddrInfo) (result : option error)
| Bootstrap (result : option error).

(** The interface [processProvider] and [DiscoverPeers] take. *)
Class PeerManager (M : Type) := {
  MarkPeerAsRecentlyRemoved : M -> string -> M;
  IsPeerUnhealthy : M -> string -> bool * M
}.

Record World (M : Type) := {
  now : Z;
  peerManager : option M;
  trace : list Event
}.
Arguments now {M}.
Arguments peerManager {M}.
Arguments trace {M}.

(** A computation that acts on the world. *)
Definition Go (M A : Type) : Type := World M -> A * World M.

#[export] Instance Go_ret {M} : MRet (Go M) := fun A (a : A) w => (a, w).
#[export] Instance Go_bind {M} : MBind (Go M) :=
  fun A B (k : A -> Go M B) (m : Go M A) w => let (a, w') := m w in k a w'.

Section Discovery.

Context {M : Type} {PM : PeerManager M}.

(** [crowdllama.Resource], with its [LastUpdated] field, and
    [crowdllama.FromJSON] belong to a package outside these files. *)
Variable Resource : Type.
Variable LastUpdated : Resource -> Z.
Variable FromJSON : list Z -> Resource + error.
Variable PeerNamespace : string.

(** [h.NewStream]: how long the dial took, and the stream or the error. *)
Variable host_NewStream : World M -> string -> N * (Stream + error).
(** The error, if any, of [SetReadDeadline] and of [Close] on the stream to
    a peer. *)
Variable network_SetReadDeadline : World M -> string -> Z -> option error.
Variable network_Close : World M -> string -> option error.
(** The providers the channel of [kadDHT.FindProvidersAsync] yields until
    it is closed. *)
Variable kadDHT_FindProvidersAsync : World M -> list Z -> Z -> list AddrInfo.

Definition emit (e : Event) : Go M unit :=
  fun w => (tt, {| now := now w; peerManager := peerManager w; trace := trace w ++ [e] |}).

(** Time passes: durations that the program waits for are not negative. *)
Definition elapse (d : N) : Go M unit :=
  fun w => (tt, {| now := now w + Z.of_N d; peerManager := peerManager w; trace := trace w |}).

Definition logger (level : Level) (msg peer_id : string) : Go M unit :=
  emit (Log level msg peer_id).

Definition time_Now : Go M Z := fun w => (now w, w).

Definition time_Sleep (d : Z) : Go M unit := emit (Sleep d);; elapse (Z.to_N d).

(** [peerManager != nil]. *)
Definition peerManager_not_nil : Go M bool :=
  fun w => (bool_decide (is_Some (peerManager w)), w).

Definition peerManager_IsPeerUnhealthy (peerID : string) : Go M bool :=
  fun w =>
    match peerManager w with
    | None => (false, w)
    | Some m =>
        let (b, m') := IsPeerUnhealthy m peerID in
        (b, {| now := now w; peerManager := Some m';
               trace := trace w ++ [CallIsPeerUnhealthy peerID] |})
    end.

Definition peerManager_MarkPeerAsRecentlyRemoved (peerID : string) : Go M unit :=
  fun w =>
    (tt, {| now := now w;
            peerManager := (fun m => MarkPeerAsRecentlyRemoved m peerID) <$> peerManager w;
            trace := trace w ++ [CallMarkPeerAsRecentlyRemoved peerID] |}).

Definition h_NewStream (peerID : string) : Go M (Stream + error) :=
  fun w =>
    let (d, r) := host_NewStream w peerID in
    (r, {| now := now w + Z.of_N d; peerManager := peerManager w;
           trace := trace w ++ [NewStream peerID] |}).

Definition stream_SetReadDeadline (peerID : string) (t : Z) : Go M (option error) :=
  fun w =>
    (network_SetReadDeadline w peerID t,
     {| now := now w; peerManager := peerManager w;
        trace := trace w ++ [SetReadDeadline t] |}).

Definition stream_Close (peerID : string) : Go M (option error) :=
  fun w =>
    (network_Close w peerID,
     {| now := now w; peerManager := peerManager w; trace := trace w ++ [Close] |}).

(** The loop of [readMetadataStream]: [inl] when it leaves by [break],
    [inr] when it returns from inside. *)
Fixpoint readMetadataStream_loop (stream : Stream) (peerID : string)
    (metadataJSON : list Z) : Go M (list Z + error) :=
  match stream with
  | Chunk d data rest =>
      elapse d;; emit (Read (len data));;
      (if 0 <? len data
       then logger Debug "Read bytes from metadata stream" peerID
       else mret tt);;
      readMetadataStream_loop rest peerID (metadataJSON ++ data)
  | Last d data readErr =>
      elapse d;; emit (Read (len data));;
      (if 0 <? len data
       then logger Debug "Read bytes from metadata stream" peerID
       else mret tt);;
      let metadataJSON := (metadataJSON ++ data)%list in
      if String.eqb (Error readErr) "EOF"
      then logger Debug "Received EOF from metadata stream" peerID;;
           mret (inl metadataJSON)
      else logger ErrorLevel "Failed to read metadata from peer" peerID;;
           mret (inr (Wrap "failed to read metadata from peer" readErr))
  end.

Definition readMetadataStream (stream : Stream) (peerID : string) : Go M (list Z + error) :=
  r ← readMetadataStream_loop stream peerID [];
  match r with
  | inr err => mret (inr err)
  | inl metadataJSON =>
      if len metadataJSON =? 0
      then mret (inr (Err "no metadata received from peer"))
      else mret (inl metadataJSON)
  end.

(** [RequestPeerMetadata]. The deferred [stream.Close()] runs on every path
    once the stream is open; an error of [Close] or of [SetReadDeadline]
    only adds a warning to the log. *)
Definition RequestPeerMetadata (peerID : string) : Go M (Resource + error) :=
  logger Debug "Opening stream to peer for metadata request" peerID;;
  r ← h_NewStream peerID;
  match r with
  | inr err =>
      logger ErrorLevel "Failed to open stream to peer" peerID;;
      mret (inr (Wrap "failed to open stream to peer" err))
  | inl stream =>
      result ← (t ← time_Now;
                setDeadlineErr ← stream_SetReadDeadline peerID (t + 5 * Second);
                match setDeadlineErr with
                | Some _ => logger Warn "failed to set read deadline" ""
                | None => mret tt
                end;;
                logger Debug "Reading metadata response from peer" peerID;;
                r ← readMetadataStream stream peerID;
                match r with
                | inr err => mret (inr err)
                | inl metadataJSON =>
                    logger Debug "Parsing metadata response" peerID;;
                    match FromJSON metadataJSON with
                    | inr err =>
                        logger ErrorLevel "Failed to parse metadata from peer" peerID;;
                        mret (inr (Wrap "failed to parse metadata from peer" err))
                    | inl metadata =>
                        logger Debug "Successfully retrieved metadata from peer" peerID;;
                        mret (inl metadata)
                    end
                end);
      closeErr ← stream_Close peerID;
      match closeErr with
      | Some _ => logger Warn "failed to close stream" ""
      | None => mret tt
      end;;
      mret result
  end.

(** [peerManager != nil && peerManager.IsPeerUnhealthy(peerID)]. *)
Definition unhealthy_check (peerID : string) : Go M bool :=
  not_nil ← peerManager_not_nil;
  if (not_nil : bool) then peerManager_IsPeerUnhealthy peerID else mret false.

(** [processProvider]; a nil [*crowdllama.Resource] is [None]. *)
Definition processProvider (provider : AddrInfo) : Go M (option Resource) :=
  let peerID := ID provider in
  logger Debug "Found peer provider" peerID;;
  unhealthy ← unhealthy_check peerID;
  if (unhealthy : bool)
  then logger Debug "Skipping peer that is already marked as unhealthy" peerID;;
       mret None
  else
    time_Sleep (100 * Millisecond);;
    r ← RequestPeerMetadata (ID provider);
    match r with
    | inr err =>
        logger Debug "Failed to get metadata from peer, skipping" peerID;;
        not_nil ← peerManager_not_nil;
        (if (not_nil : bool) then peerManager_MarkPeerAsRecentlyRemoved peerID else mret tt);;
        mret None
    | inl metadata =>
        t ← time_Now;
        if 1 * Hour <? Since (t : Z) (LastUpdated metadata)
        then logger Debug "Metadata from peer is too old, skipping" peerID;;
             mret None
        else logger Debug "Found peer" peerID;;
             mret (Some metadata)
    end.

(** The [range] over the provider channel. *)
Fixpoint DiscoverPeers_range (providers : list AddrInfo) (peers : list Resource)
    : Go M (list Resource) :=
  match providers with
  | [] => mret peers
  | provider :: providers =>
      metadata ← processProvider provider;
      DiscoverPeers_range providers
        (match metadata with
         | Some metadata => peers ++ [metadata]
         | None => peers
         end)
  end.

Definition kadDHT_FindProviders (key : list Z) (count : Z) : Go M (list AddrInfo) :=
  fun w =>
    (kadDHT_FindProvidersAsync w key count,
     {| now := now w; peerManager := peerManager w;
        trace := trace w ++ [FindProvidersAsync key count] |}).

(** [DiscoverPeers]; a nil slice and an empty one are both [[]]. *)
Definition DiscoverPeers : Go M (list Resource * option error) :=
  let peers := [] in
  match GetPeerNamespaceCID PeerNamespace with
  | (_, Some err) => mret ([], Some (Wrap "failed to get namespace CID" err))
  | (namespaceCID, None) =>
      logger Debug "Searching for peers with namespace CID" "";;
      providers ← kadDHT_FindProviders namespaceCID 10;
      peers ← DiscoverPeers_range providers peers;
      logger Debug "Discovery complete" "";;
      mret (peers, None)
  end.

(** **** What a stream delivers *)

Fixpoint stream_data (stream : Stream) : list Z :=
  match stream with
  | Chunk _ data rest => data ++ stream_data rest
  | Last _ data _ => data
  end.

Fixpoint stream_err (stream : Stream) : error :=
  match stream with
  | Chunk _ _ rest => stream_err rest
  | Last _ _ readErr => readErr
  end.

Definition is_error {A} (r : A + error) : bool :=
  match r with inr _ => true | inl _ => false end.

(** The ways a metadata fetch fails, by the answer of the network: the
    stream does not open; a read fails with an error other than end of
    stream, a deadline that expired among them; the stream ends with nothing
    read; what was read does not decode. *)
Definition fetch_failure (answer : Stream + error) : bool :=
  match answer with
  | inr _ => true
  | inl stream =>
      if String.eqb (Error (stream_err stream)) "EOF"
      then (len (stream_data stream) =? 0) || is_error (FromJSON (stream_data stream))
      else true
  end.

(** The world in which [processProvider], when it does not skip the
    candidate, calls [h.NewStream]. *)
Definition dial_world (provider : AddrInfo) (w : World M) : World M :=
  snd ((logger Debug "Found peer provider" (ID provider);;
        unhealthy_check (ID provider);;
        time_Sleep (100 * Millisecond);;
        logger Debug "Opening stream to peer for metadata request" (ID provider)) w).

(** **** Frame properties: who touches the peer manager and the clock *)

Definition keeps_manager {A} (c : Go M A) : Prop :=
  forall w, peerManager (snd (c w)) = peerManager w.

Definition clock_mono {A} (c : Go M A) : Prop :=
  forall w, now w <= now (snd (c w)).

Lemma keeps_manager_bind {A B} (m : Go M A) (k : A -> Go M B) :
  keeps_manager m -> (forall a, keeps_manager (k a)) -> keeps_manager (m ≫= k).
Proof.
  intros Hm Hk w. unfold mbind, Go_bind.
  specialize (Hm w). destruct (m w) as [a w1]. cbn in Hm.
  rewrite Hk. exact Hm.
Qed.

Lemma clock_mono_bind {A B} (m : Go M A) (k : A -> Go M B) :
  clock_mono m -> (forall a, clock_mono (k a)) -> clock_mono (m ≫= k).
Proof.
  intros Hm Hk w. unfold mbind, Go_bind.
  specialize (Hm w). destruct (m w) as [a w1]. cbn in Hm.
  specialize (Hk a w1). lia.
Qed.

Lemma keeps_manager_ret {A} (a : A) : keeps_manager (mret a).
Proof. intros w. reflexivity. Qed.

Lemma clock_mono_ret {A} (a : A) : clock_mono (mret a : Go M A).
Proof. intros w. cbn. lia. Qed.

Lemma keeps_manager_emit e : keeps_manager (emit e).
Proof. intros w. reflexivity. Qed.

Lemma clock_mono_emit e : clock_mono (emit e).
Proof. intros w. cbn. lia. Qed.

Lemma keeps_manager_elapse d : keeps_manager (elapse d).
Proof. intros w. reflexivity. Qed.

Lemma clock_mono_elapse d : clock_mono (elapse d).
Proof. intros w. cbn. lia. Qed.

Lemma keeps_manager_logger l m p : keeps_manager (logger l m p).
Proof. intros w. reflexivity. Qed.

Lemma clock_mono_logger l m p : clock_mono (logger l m p).
Proof. intros w. cbn. lia. Qed.

Lemma keeps_manager_Now : keeps_manager time_Now.
Proof. intros w. reflexivity. Qed.

Lemma clock_mono_Now : clock_mono time_Now.
Proof. intros w. cbn. lia. Qed.

Lemma keeps_manager_NewStream p : keeps_manager (h_NewStream p).
Proof. intros w. unfold h_NewStream. destruct (host_NewStream w p). reflexivity. Qed.

Lemma clock_mono_NewStream p : clock_mono (h_NewStream p).
Proof. intros w. unfold h_NewStream. destruct (host_NewStream w p). cbn. lia. Qed.

Lemma keeps_manager_SetReadDeadline p t : keeps_manager (stream_SetReadDeadline p t).
Proof. intros w. reflexivity. Qed.

Lemma clock_mono_SetReadDeadline p t : clock_mono (stream_SetReadDeadline p t).
Proof. intros w. cbn. lia. Qed.

Lemma keeps_manager_Close p : keeps_manager (stream_Close p).
Proof. intros w. reflexivity. Qed.

Lemma clock_mono_Close p : clock_mono (stream_Close p).
Proof. intros w. cbn. lia. Qed.

Lemma clock_mono_not_nil : clock_mono peerManager_not_nil.
Proof. intros w. cbn. lia. Qed.

Lemma clock_mono_IsPeerUnhealthy p : clock_mono (peerManager_IsPeerUnhealthy p).
Proof.
  intros w. unfold peerManager_IsPeerUnhealthy.
  destruct (peerManager w) as [m|]; [destruct (IsPeerUnhealthy m p)|]; cbn; lia.
Qed.

Lemma clock_mono_Mark p : clock_mono (peerManager_MarkPeerAsRecentlyRemoved p).
Proof. intros w. cbn. lia. Qed.

Create HintDb go_frame discriminated.

#[local] Hint Resolve keeps_manager_ret clock_mono_ret keeps_manager_emit clock_mono_emit
  keeps_manager_elapse clock_mono_elapse keeps_manager_logger clock_mono_logger
  keeps_manager_Now clock_mono_Now keeps_manager_NewStream clock_mono_NewStream
  keeps_manager_SetReadDeadline clock_mono_SetReadDeadline keeps_manager_Close clock_mono_Close
  clock_mono_not_nil clock_mono_IsPeerUnhealthy clock_mono_Mark : go_frame.

Ltac frame :=
  repeat first
    [ solve [trivial with go_frame nocore]
    | apply keeps_manager_bind; [|intros ?]
    | apply clock_mono_bind; [|intros ?]
    | match goal with
      | |- keeps_manager (if ?b then _ else _) => destruct b
      | |- clock_mono (if ?b then _ else _) => destruct b
      | |- keeps_manager (match ?x with _ => _ end) => destruct x
      | |- clock_mono (match ?x with _ => _ end) => destruct x
      end ].

Lemma keeps_manager_readLoop stream p : forall acc,
  keeps_manager (readMetadataStream_loop stream p acc).
Proof. induction stream; intros acc; cbn [readMetadataStream_loop]; frame. Qed.

Lemma clock_mono_readLoop stream p : forall acc,
  clock_mono (readMetadataStream_loop stream p acc).
Proof. induction stream; intros acc; cbn [readMetadataStream_loop]; frame. Qed.

#[local] Hint Resolve keeps_manager_readLoop clock_mono_readLoop : go_frame.

Lemma keeps_manager_readMetadataStream stream p : keeps_manager (readMetadataStream stream p).
Proof. unfold readMetadataStream. frame. Qed.

Lemma clock_mono_readMetadataStream stream p : clock_mono (readMetadataStream stream p).
Proof. unfold readMetadataStream. frame. Qed.

#[local] Hint Resolve keeps_manager_readMetadataStream clock_mono_readMetadataStream : go_frame.

Lemma keeps_manager_RequestPeerMetadata p : keeps_manager (RequestPeerMetadata p).
Proof. unfold RequestPeerMetadata. frame. Qed.

Lemma clock_mono_RequestPeerMetadata p : clock_mono (RequestPeerMetadata p).
Proof. unfold RequestPeerMetadata. frame. Qed.

Lemma clock_mono_Sleep d : clock_mono (time_Sleep d).
Proof. unfold time_Sleep. frame. Qed.

Lemma keeps_manager_Sleep d : keeps_manager (time_Sleep d).
Proof. unfold time_Sleep. frame. Qed.

Lemma clock_mono_unhealthy_check p : clock_mono (unhealthy_check p).
Proof. unfold unhealthy_check. frame. Qed.

#[local] Hint Resolve keeps_manager_RequestPeerMetadata clock_mono_RequestPeerMetadata
  clock_mono_Sleep keeps_manager_Sleep clock_mono_unhealthy_check : go_frame.

Lemma clock_mono_processProvider provider : clock_mono (processProvider provider).
Proof. unfold processProvider. cbv zeta. frame. Qed.

(** **** What the functions return *)

Lemma readMetadataStream_loop_result stream p : forall acc w,
  fst (readMetadataStream_loop stream p acc w)
  = if String.eqb (Error (stream_err stream)) "EOF"
    then inl (acc ++ stream_data stream)%list
    else inr (Wrap "failed to read metadata from peer" (stream_err stream)).
Proof.
  induction stream as [d data rest IH | d data readErr]; intros acc w;
    cbn [readMetadataStream_loop stream_data stream_err].
  - unfold mbind, Go_bind. cbn [elapse emit].
    destruct (0 <? len data); cbn; rewrite IH, <- app_assoc; reflexivity.
  - unfold mbind, Go_bind. cbn [elapse emit].
    destruct (0 <? len data); cbn;
      destruct (String.eqb (Error readErr) "EOF"); reflexivity.
Qed.

Lemma readMetadataStream_result stream p w :
  fst (readMetadataStream stream p w)
  = if String.eqb (Error (stream_err stream)) "EOF"
    then if len (stream_data stream) =? 0
         then inr (Err "no metadata received from peer")
         else inl (stream_data stream)
    else inr (Wrap "failed to read metadata from peer" (stream_err stream)).
Proof.
  unfold readMetadataStream, mbind, Go_bind.
  pose proof (readMetadataStream_loop_result stream p [] w) as H.
  destruct (readMetadataStream_loop stream p [] w) as [r w1]. cbn in H. subst r.
  destruct (String.eqb (Error (stream_err stream)) "EOF"); [|reflexivity].
  destruct (len (stream_data stream) =? 0); reflexivity.
Qed.

(** An end of stream with nothing read is an error of the fetch. *)
Lemma readMetadataStream_empty_EOF d p w :
  fst (readMetadataStream (Last d [] EOF) p w) = inr (Err "no metadata received from peer").
Proof. rewrite readMetadataStream_result. reflexivity. Qed.

Lemma Go_bind_unfold {A B} (m : Go M A) (k : A -> Go M B) (w : World M) :
  (m ≫= k) w = k (fst (m w)) (snd (m w)).
Proof. unfold mbind, Go_bind. destruct (m w). reflexivity. Qed.

(** [RequestPeerMetadata] fails exactly in the cases of [fetch_failure]. *)
Lemma RequestPeerMetadata_fails p w :
  is_error (fst (RequestPeerMetadata p w))
  = fetch_failure
      (snd (host_NewStream
              (snd (logger Debug "Opening stream to peer for metadata request" p w)) p)).
Proof.
  unfold RequestPeerMetadata. rewrite !Go_bind_unfold.
  unfold h_NewStream.
  destruct (host_NewStream _ p) as [d [stream|err]]; cbn [fst snd fetch_failure].
  2: { rewrite !Go_bind_unfold. reflexivity. }
  rewrite !Go_bind_unfold. cbn [mret Go_ret fst].
  rewrite readMetadataStream_result.
  destruct (String.eqb (Error (stream_err stream)) "EOF"); [|reflexivity].
  destruct (len (stream_data stream) =? 0); [reflexivity|]. cbn [orb].
  rewrite ?Go_bind_unfold.
  destruct (FromJSON (stream_data stream)); rewrite ?Go_bind_unfold; reflexivity.
Qed.

(** Whether [processProvider] skips the candidate. *)
Definition skipped (provider : AddrInfo) (w : World M) : bool :=
  fst ((logger Debug "Found peer provider" (ID provider);;
        unhealthy_check (ID provider)) w).

Lemma skipped_manager provider w :
  skipped provider w
  = match peerManager w with
    | Some m => fst (IsPeerUnhealthy m (ID provider))
    | None => false
    end.
Proof.
  unfold skipped, unhealthy_check. rewrite !Go_bind_unfold. cbn.
  unfold peerManager_IsPeerUnhealthy. cbn.
  destruct (peerManager w) as [m|]; cbn; [|reflexivity].
  destruct (IsPeerUnhealthy m (ID provider)); reflexivity.
Qed.

Lemma DiscoverPeers_range_cons provider rest peers w :
  DiscoverPeers_range (provider :: rest) peers w
  = DiscoverPeers_range rest
      (match fst (processProvider provider w) with
       | Some metadata => peers ++ [metadata]
       | None => peers
       end)
      (snd (processProvider provider w)).
Proof. cbn [DiscoverPeers_range]. rewrite Go_bind_unfold. reflexivity. Qed.

(** [DiscoverPeers] has one error return, before the query. *)
Lemma DiscoverPeers_error_source w err :
  snd (fst (DiscoverPeers w)) = Some err ->
  exists err0, snd (GetPeerNamespaceCID PeerNamespace) = Some err0 /\
               err = Wrap "failed to get namespace CID" err0.
Proof.
  unfold DiscoverPeers. cbv zeta.
  destruct (GetPeerNamespaceCID PeerNamespace) as [c [err0|]]; cbn.
  - intros [= <-]. eauto.
  - rewrite !Go_bind_unfold. cbn. discriminate.
Qed.

Lemma DiscoverPeers_no_error w : snd (fst (DiscoverPeers w)) = None.
Proof.
  destruct (snd (fst (DiscoverPeers w))) as [err|] eqn:E; [|reflexivity].
  apply DiscoverPeers_error_source in E as (err0 & E & _).
  unfold GetPeerNamespaceCID in E. rewrite Sum_IDENTITY_total in E. discriminate E.
Qed.

Lemma unhealthy_check_Some p w m :
  peerManager w = Some m ->
  unhealthy_check p w
  = (fst (IsPeerUnhealthy m p),
     {| now := now w; peerManager := Some (snd (IsPeerUnhealthy m p));
        trace := trace w ++ [CallIsPeerUnhealthy p] |}).
Proof.
  intros Hm. unfold unhealthy_check. rewrite Go_bind_unfold.
  unfold peerManager_not_nil, peerManager_IsPeerUnhealthy. cbv beta. cbn [fst snd].
  rewrite !Hm. rewrite bool_decide_true by eauto. cbv beta iota. rewrite Hm.
  destruct (IsPeerUnhealthy m p). reflexivity.
Qed.

Lemma unhealthy_check_None p w :
  peerManager w = None -> unhealthy_check p w = (false, w).
Proof.
  intros Hm. unfold unhealthy_check. rewrite Go_bind_unfold.
  unfold peerManager_not_nil. cbv beta. cbn [fst snd].
  rewrite !Hm. rewrite bool_decide_false by (intros [? ?]; discriminate).
  reflexivity.
Qed.

(** C4. A candidate that the peer manager reports unhealthy is skipped:
    [processProvider] returns nil after the health query and one log line,
    without sleeping, opening a stream or reading, and the candidate adds
    nothing to the peers that [DiscoverPeers] collects. *)
Theorem processProvider_skips_unhealthy (provider : AddrInfo) (w : World M) (m : M) :
  peerManager w = Some m ->
  fst (IsPeerUnhealthy m (ID provider)) = true ->
  let peerID := ID provider in
  let w' := snd (processProvider provider w) in
  fst (processProvider provider w) = None /\
  trace w' = (trace w ++
              [Log Debug "Found peer provider" peerID;
               CallIsPeerUnhealthy peerID;
               Log Debug "Skipping peer that is already marked as unhealthy" peerID])%list /\
  now w' = now w /\
  forall rest peers,
    DiscoverPeers_range (provider :: rest) peers w = DiscoverPeers_range rest peers w'.
Proof.
  intros Hm Hu. cbv zeta.
  assert (E : processProvider provider w
              = (None, {| now := now w;
                          peerManager := Some (snd (IsPeerUnhealthy m (ID provider)));
                          trace := ((trace w ++ [Log Debug "Found peer provider" (ID provider)])
                                    ++ [CallIsPeerUnhealthy (ID provider)])
                                   ++ [Log Debug "Skipping peer that is already marked as unhealthy"
                                         (ID provider)] |})).
  { unfold processProvider. cbv zeta. rewrite !Go_bind_unfold.
    rewrite (unhealthy_check_Some _ _ m) by exact Hm.
    cbn [fst snd]. rewrite Hu. rewrite Go_bind_unfold. reflexivity. }
  repeat split.
  - rewrite E. reflexivity.
  - rewrite E. cbn [snd trace]. rewrite <- !app_assoc. reflexivity.
  - rewrite E. reflexivity.
  - intros rest peers. rewrite DiscoverPeers_range_cons, E. reflexivity.
Qed.

(** The world after the health query, and the fetch that follows the
    100ms pause, for a candidate that is not skipped. *)
Definition checked_world (provider : AddrInfo) (w : World M) : World M :=
  snd ((logger Debug "Found peer provider" (ID provider);;
        unhealthy_check (ID provider)) w).

Definition fetch (provider : AddrInfo) (w : World M) : (Resource + error) * World M :=
  RequestPeerMetadata (ID provider)
    (snd (time_Sleep (100 * Millisecond) (checked_world provider w))).

Lemma processProvider_not_skipped provider w :
  skipped provider w = false ->
  processProvider provider w
  = match fst (fetch provider w) with
    | inr err =>
        (None,
         snd ((logger Debug "Failed to get metadata from peer, skipping" (ID provider);;
               not_nil ← peerManager_not_nil;
               if (not_nil : bool)
               then peerManager_MarkPeerAsRecentlyRemoved (ID provider)
               else mret tt) (snd (fetch provider w))))
    | inl metadata =>
        if 1 * Hour <? Since (now (snd (fetch provider w))) (LastUpdated metadata)
        then (None, snd (logger Debug "Metadata from peer is too old, skipping" (ID provider)
                           (snd (fetch provider w))))
        else (Some metadata, snd (logger Debug "Found peer" (ID provider)
                                    (snd (fetch provider w))))
    end.
Proof.
  unfold skipped, fetch, checked_world. intros Hs.
  unfold processProvider. cbv zeta.
  rewrite Go_bind_unfold. rewrite Go_bind_unfold in Hs.
  rewrite (Go_bind_unfold (unhealthy_check (ID provider))).
  rewrite Hs. rewrite !(Go_bind_unfold (time_Sleep _)).
  rewrite (Go_bind_unfold (RequestPeerMetadata _)).
  rewrite !(Go_bind_unfold (logger Debug "Found peer provider" _)).
  destruct (RequestPeerMetadata _ _) as [[metadata|err] w4]; cbn [fst snd].
  - rewrite Go_bind_unfold. cbn [time_Now fst snd].
    destruct (1 * Hour <? _); rewrite Go_bind_unfold; reflexivity.
  - rewrite !Go_bind_unfold. reflexivity.
Qed.

Lemma dial_world_fetch provider w :
  dial_world provider w
  = snd (logger Debug "Opening stream to peer for metadata request" (ID provider)
           (snd (time_Sleep (100 * Millisecond) (checked_world provider w)))).
Proof. unfold dial_world, checked_world. rewrite !Go_bind_unfold. reflexivity. Qed.

Lemma fetch_fails provider w :
  is_error (fst (fetch provider w))
  = fetch_failure (snd (host_NewStream (dial_world provider w) (ID provider))).
Proof. unfold fetch. rewrite RequestPeerMetadata_fails, dial_world_fetch. reflexivity. Qed.

Lemma fetch_manager provider w :
  peerManager (snd (fetch provider w)) = peerManager (checked_world provider w).
Proof.
  unfold fetch. rewrite keeps_manager_RequestPeerMetadata, keeps_manager_Sleep. reflexivity.
Qed.

Lemma checked_world_manager provider w m :
  peerManager w = Some m ->
  peerManager (checked_world provider w) = Some (snd (IsPeerUnhealthy m (ID provider))).
Proof.
  intros Hm. unfold checked_world. rewrite Go_bind_unfold.
  rewrite (unhealthy_check_Some _ _ m) by exact Hm. reflexivity.
Qed.

Lemma checked_world_clock provider w : now w <= now (checked_world provider w).
Proof.
  unfold checked_world.
  apply (clock_mono_bind (logger Debug "Found peer provider" (ID provider))); frame.
Qed.

(** C3, amended. A candidate that is not skipped and whose metadata fetch
    fails (the stream does not open, a read fails or times out, the stream
    ends with nothing read, the bytes do not decode) makes [processProvider]
    return nil, and the batch goes on with the next candidate. When a peer
    manager was passed, the last thing [processProvider] does is to call its
    [MarkPeerAsRecentlyRemoved] with the peer's ID. *)
Theorem processProvider_fetch_failure (provider : AddrInfo) (w : World M) :
  skipped provider w = false ->
  fetch_failure (snd (host_NewStream (dial_world provider w) (ID provider))) = true ->
  let w' := snd (processProvider provider w) in
  fst (processProvider provider w) = None /\
  (forall rest peers,
     DiscoverPeers_range (provider :: rest) peers w = DiscoverPeers_range rest peers w') /\
  (forall m, peerManager w = Some m ->
     last (trace w') = Some (CallMarkPeerAsRecentlyRemoved (ID provider)) /\
     peerManager w'
     = Some (MarkPeerAsRecentlyRemoved (snd (IsPeerUnhealthy m (ID provider))) (ID provider))).
Proof.
  intros Hs Hf. cbv zeta.
  rewrite <- fetch_fails in Hf.
  pose proof (processProvider_not_skipped provider w Hs) as E.
  pose proof (fetch_manager provider w) as Hpm.
  destruct (fetch provider w) as [[metadata|err] w4]; [discriminate Hf|].
  cbn [fst snd] in E, Hpm. rewrite E. cbn [fst snd].
  split; [reflexivity|]. split.
  - intros rest peers. rewrite DiscoverPeers_range_cons, E. reflexivity.
  - intros m Hm. rewrite (checked_world_manager provider w m Hm) in Hpm.
    destruct w4 as [t4 pm4 es4]. cbn [peerManager] in Hpm. subst pm4.
    rewrite !Go_bind_unfold. unfold peerManager_not_nil. cbv beta.
    cbn [fst snd logger emit peerManager].
    rewrite bool_decide_true by eauto.
    cbn. split; [apply last_snoc | reflexivity].
Qed.

Lemma processProvider_skipped provider w :
  skipped provider w = true -> fst (processProvider provider w) = None.
Proof.
  unfold skipped. intros Hs. unfold processProvider. cbv zeta.
  rewrite Go_bind_unfold. rewrite Go_bind_unfold in Hs.
  rewrite (Go_bind_unfold (unhealthy_check (ID provider))).
  rewrite Hs. rewrite Go_bind_unfold. reflexivity.
Qed.

Lemma Since_le_Hour (t u : Z) : Since t u <= 1 * Hour -> t - u <= 1 * Hour.
Proof.
  unfold Since, Sub, minDuration, maxDuration, Hour, Second, Millisecond. cbv zeta.
  destruct (t - u <? - 2 ^ 63) eqn:E1; [apply Z.ltb_lt in E1; lia|].
  destruct (2 ^ 63 - 1 <? t - u) eqn:E2; [lia|]. lia.
Qed.

Lemma processProvider_Some_fresh provider w metadata :
  fst (processProvider provider w) = Some metadata ->
  Since (now (snd (processProvider provider w))) (LastUpdated metadata) <= 1 * Hour.
Proof.
  destruct (skipped provider w) eqn:Hs.
  - rewrite processProvider_skipped by exact Hs. discriminate.
  - rewrite processProvider_not_skipped by exact Hs.
    destruct (fetch provider w) as [[md|err] w4]; cbn [fst snd]; [|discriminate].
    destruct (1 * Hour <? Since (now w4) (LastUpdated md)) eqn:E; cbn [fst snd];
      [discriminate|].
    intros [= <-]. apply Z.ltb_ge in E. exact E.
Qed.

Lemma DiscoverPeers_range_fresh providers : forall peers w metadata,
  In metadata (fst (DiscoverPeers_range providers peers w)) ->
  In metadata peers \/ now w - LastUpdated metadata <= 1 * Hour.
Proof.
  induction providers as [|provider rest IH]; intros peers w metadata.
  - cbn. auto.
  - rewrite DiscoverPeers_range_cons. intros Hin.
    pose proof (clock_mono_processProvider provider w) as Hclock.
    apply IH in Hin as [Hin|Hin]; [|right; lia].
    destruct (fst (processProvider provider w)) as [md|] eqn:E; [|auto].
    apply in_app_or in Hin as [Hin|[<-|[]]]; [auto|].
    right. apply processProvider_Some_fresh, Since_le_Hour in E. lia.
Qed.

(** The query that [DiscoverPeers] makes: the world it is made in and its
    key. *)
Definition query_world (w : World M) : World M :=
  snd (logger Debug "Searching for peers with namespace CID" "" w).

Lemma DiscoverPeers_unfold w :
  DiscoverPeers w
  = let providers :=
      kadDHT_FindProvidersAsync (query_world w) (fst (GetPeerNamespaceCID PeerNamespace)) 10 in
    let r := DiscoverPeers_range providers []
               (snd (kadDHT_FindProviders (fst (GetPeerNamespaceCID PeerNamespace)) 10
                       (query_world w))) in
    ((fst r, None), snd (logger Debug "Discovery complete" "" (snd r))).
Proof.
  unfold DiscoverPeers, query_world. cbv zeta.
  unfold GetPeerNamespaceCID. rewrite Sum_IDENTITY_total. cbn [fst].
  rewrite !Go_bind_unfold. reflexivity.
Qed.

(** C1, amended. [processProvider] returns a Resource only if, at the moment
    of the check, its [LastUpdated] is at most one hour old; the bound is the
    constant of the code and not a configured [MaxMetadataAge]. Hence no
    Resource that was more than an hour old when [DiscoverPeers] started is
    in its result. *)
Theorem processProvider_fresh :
  (forall (provider : AddrInfo) (w : World M) (metadata : Resource),
     fst (processProvider provider w) = Some metadata ->
     Since (now (snd (processProvider provider w))) (LastUpdated metadata) <= 1 * Hour) /\
  (forall (w : World M) (metadata : Resource),
     In metadata (fst (fst (DiscoverPeers w))) ->
     now w - LastUpdated metadata <= 1 * Hour).
Proof.
  split; [exact processProvider_Some_fresh|].
  intros w metadata. rewrite DiscoverPeers_unfold. cbv zeta. cbn [fst].
  intros Hin. apply DiscoverPeers_range_fresh in Hin as [[]|Hin]. exact Hin.
Qed.

(** C2. [DiscoverPeers] returns an error only from the computation of the
    namespace CID, which does not fail; the provider query has no error
    result. When the query yields no candidate the result is the empty
    sequence and a nil error. *)
Theorem DiscoverPeers_errors :
  (forall (w : World M) (err : error),
     snd (fst (DiscoverPeers w)) = Some err ->
     exists err0, snd (GetPeerNamespaceCID PeerNamespace) = Some err0 /\
                  err = Wrap "failed to get namespace CID" err0) /\
  (forall w : World M, snd (fst (DiscoverPeers w)) = None) /\
  (forall w : World M,
     kadDHT_FindProvidersAsync (query_world w) (fst (GetPeerNamespaceCID PeerNamespace)) 10 = [] ->
     fst (DiscoverPeers w) = ([], None)).
Proof.
  split; [exact DiscoverPeers_error_source|].
  split; [exact DiscoverPeers_no_error|].
  intros w Hq. rewrite DiscoverPeers_unfold. cbv zeta. rewrite Hq. reflexivity.
Qed.

(** **** Counting the calls in a trace *)

Definition count_events (P : Event -> bool) (es : list Event) : nat :=
  length (List.filter P es).

Definition is_dial (e : Event) : bool :=
  match e with NewStream _ => true | _ => false end.

Definition is_read (e : Event) : bool :=
  match e with Read _ => true | _ => false end.

Definition is_close (e : Event) : bool :=
  match e with Close => true | _ => false end.

Definition is_mark (e : Event) : bool :=
  match e with CallMarkPeerAsRecentlyRemoved _ => true | _ => false end.

(** A computation that adds no event of a kind to the trace. *)
Definition silent {A} (P : Event -> bool) (c : Go M A) : Prop :=
  forall w, count_events P (trace (snd (c w))) = count_events P (trace w).

(** The time the reads of a stream take, and their number. *)
Fixpoint stream_time (stream : Stream) : N :=
  match stream with
  | Chunk d _ rest => (d + stream_time rest)%N
  | Last d _ _ => d
  end.

Fixpoint stream_reads (stream : Stream) : nat :=
  match stream with
  | Chunk _ _ rest => S (stream_reads rest)
  | Last _ _ _ => 1
  end.

Lemma count_events_app P es1 es2 :
  count_events P (es1 ++ es2) = (count_events P es1 + count_events P es2)%nat.
Proof. unfold count_events. rewrite List.filter_app, List.length_app. reflexivity. Qed.

Lemma count_events_snoc P es e :
  count_events P (es ++ [e]) = (count_events P es + if P e then 1 else 0)%nat.
Proof. rewrite count_events_app. unfold count_events. cbn. destruct (P e); reflexivity. Qed.

Lemma silent_bind {A B} P (m : Go M A) (k : A -> Go M B) :
  silent P m -> (forall a, silent P (k a)) -> silent P (m ≫= k).
Proof.
  intros Hm Hk w. rewrite Go_bind_unfold, Hk. apply Hm.
Qed.

Lemma silent_ret {A} P (a : A) : silent P (mret a).
Proof. intros w. reflexivity. Qed.

Lemma silent_emit P e : P e = false -> silent P (emit e).
Proof. intros He w. cbn [emit snd trace]. rewrite count_events_snoc, He. lia. Qed.

Lemma silent_logger P l m q : P (Log l m q) = false -> silent P (logger l m q).
Proof. apply silent_emit. Qed.

Lemma silent_elapse P d : silent P (elapse d).
Proof. intros w. reflexivity. Qed.

Lemma silent_Now P : silent P time_Now.
Proof. intros w. reflexivity. Qed.

Lemma silent_not_nil P : silent P peerManager_not_nil.
Proof. intros w. reflexivity. Qed.

Lemma silent_NewStream P p : P (NewStream p) = false -> silent P (h_NewStream p).
Proof.
  intros He w. unfold h_NewStream. destruct (host_NewStream w p). cbn [snd trace].
  rewrite count_events_snoc, He. lia.
Qed.

Lemma silent_IsPeerUnhealthy P p :
  P (CallIsPeerUnhealthy p) = false -> silent P (peerManager_IsPeerUnhealthy p).
Proof.
  intros He w. unfold peerManager_IsPeerUnhealthy.
  destruct (peerManager w) as [m|]; [|reflexivity].
  destruct (IsPeerUnhealthy m p). cbn [snd trace]. rewrite count_events_snoc, He. lia.
Qed.

Lemma silent_Mark P p :
  P (CallMarkPeerAsRecentlyRemoved p) = false -> silent P (peerManager_MarkPeerAsRecentlyRemoved p).
Proof.
  intros He w. unfold peerManager_MarkPeerAsRecentlyRemoved. cbn [snd trace].
  rewrite count_events_snoc, He. lia.
Qed.

Lemma silent_readLoop P stream p :
  (forall n, P (Read n) = false) -> (forall l m q, P (Log l m q) = false) ->
  forall acc, silent P (readMetadataStream_loop stream p acc).
Proof.
  intros Hr Hl. induction stream; intros acc; cbn [readMetadataStream_loop];
    repeat first
      [ apply IHstream
      | apply silent_ret
      | apply silent_elapse
      | apply silent_emit; first [apply Hr | apply Hl]
      | apply silent_bind; [|intros ?]
      | match goal with
        | |- silent _ (if ?b then _ else _) => destruct b
        end ].
Qed.

Lemma silent_readMetadataStream P stream p :
  (forall n, P (Read n) = false) -> (forall l m q, P (Log l m q) = false) ->
  silent P (readMetadataStream stream p).
Proof.
  intros Hr Hl. unfold readMetadataStream.
  apply silent_bind; [apply silent_readLoop; assumption|].
  intros [metadataJSON|err]; [destruct (len metadataJSON =? 0)|]; apply silent_ret.
Qed.

Lemma silent_processProvider_head P provider :
  (forall l m q, P (Log l m q) = false) -> (forall q, P (CallIsPeerUnhealthy q) = false) ->
  silent P (logger Debug "Found peer provider" (ID provider);; unhealthy_check (ID provider)).
Proof.
  intros Hl Hu. unfold unhealthy_check.
  apply silent_bind; [apply silent_emit, Hl|]. intros _.
  apply silent_bind; [apply silent_not_nil|]. intros [|]; [|apply silent_ret].
  apply silent_IsPeerUnhealthy, Hu.
Qed.

(** [time.Sleep] lets exactly the given time pass. *)
Lemma time_Sleep_now d w : 0 <= d -> now (snd (time_Sleep d w)) = now w + d.
Proof.
  intros Hd. unfold time_Sleep. rewrite Go_bind_unfold. cbn [fst snd emit elapse now].
  rewrite Z2N.id by exact Hd. reflexivity.
Qed.

(** **** Reading a stream *)

Lemma readMetadataStream_loop_time stream p : forall acc w,
  now (snd (readMetadataStream_loop stream p acc w)) = now w + Z.of_N (stream_time stream).
Proof.
  induction stream as [d data rest IH | d data readErr]; intros acc w;
    cbn [readMetadataStream_loop stream_time]; rewrite !Go_bind_unfold.
  - rewrite IH. destruct (0 <? len data);
      cbn [fst snd emit elapse logger now mret Go_ret]; rewrite N2Z.inj_add; lia.
  - cbv zeta. destruct (0 <? len data), (String.eqb (Error readErr) "EOF");
      rewrite ?Go_bind_unfold; cbn [fst snd emit elapse logger now mret Go_ret]; lia.
Qed.

Lemma readMetadataStream_loop_reads stream p : forall acc w,
  count_events is_read (trace (snd (readMetadataStream_loop stream p acc w)))
  = (count_events is_read (trace w) + stream_reads stream)%nat.
Proof.
  induction stream as [d data rest IH | d data readErr]; intros acc w;
    cbn [readMetadataStream_loop stream_reads]; rewrite !Go_bind_unfold.
  - rewrite IH. destruct (0 <? len data); cbn [fst snd emit elapse logger trace mret Go_ret];
      rewrite ?count_events_snoc; cbn [is_read]; lia.
  - cbv zeta. destruct (0 <? len data), (String.eqb (Error readErr) "EOF");
      rewrite ?Go_bind_unfold; cbn [fst snd emit elapse logger trace mret Go_ret];
      rewrite ?count_events_snoc; cbn [is_read]; lia.
Qed.

Lemma readMetadataStream_time stream p w :
  now (snd (readMetadataStream stream p w)) = now w + Z.of_N (stream_time stream).
Proof.
  unfold readMetadataStream. rewrite Go_bind_unfold.
  rewrite <- (readMetadataStream_loop_time stream p [] w).
  destruct (fst (readMetadataStream_loop stream p [] w)) as [metadataJSON|err];
    [destruct (len metadataJSON =? 0)|]; reflexivity.
Qed.

Lemma readMetadataStream_reads stream p w :
  count_events is_read (trace (snd (readMetadataStream stream p w)))
  = (count_events is_read (trace w) + stream_reads stream)%nat.
Proof.
  unfold readMetadataStream. rewrite Go_bind_unfold.
  rewrite <- (readMetadataStream_loop_reads stream p [] w).
  destruct (fst (readMetadataStream_loop stream p [] w)) as [metadataJSON|err];
    [destruct (len metadataJSON =? 0)|]; reflexivity.
Qed.

(** X4. [readMetadataStream] returns every byte the reads delivered, in
    order, when the stream ends with an error whose text is [EOF] and at
    least one byte came; with no byte it fails; on any other read error it
    fails with that error wrapped and drops the bytes already read. It
    calls [Read] until the first error, takes the time of those reads, and
    leaves the peer manager alone. *)
Theorem readMetadataStream_reads_all (stream : Stream) (peerID : string) (w : World M) :
  let r := readMetadataStream stream peerID w in
  fst r = (if String.eqb (Error (stream_err stream)) "EOF"
           then if len (stream_data stream) =? 0
                then inr (Err "no metadata received from peer")
                else inl (stream_data stream)
           else inr (Wrap "failed to read metadata from peer" (stream_err stream))) /\
  now (snd r) = now w + Z.of_N (stream_time stream) /\
  count_events is_read (trace (snd r))
  = (count_events is_read (trace w) + stream_reads stream)%nat /\
  peerManager (snd r) = peerManager w.
Proof.
  cbv zeta. split; [apply readMetadataStream_result|].
  split; [apply readMetadataStream_time|].
  split; [apply readMetadataStream_reads|apply keeps_manager_readMetadataStream].
Qed.

(** **** Streams are closed *)

(** What [RequestPeerMetadata] does between the opening of the stream and
    the deferred [Close]. *)
Definition read_and_parse (stream : Stream) (peerID : string) : Go M (Resource + error) :=
  t ← time_Now;
  setDeadlineErr ← stream_SetReadDeadline peerID (t + 5 * Second);
  match setDeadlineErr with
  | Some _ => logger Warn "failed to set read deadline" ""
  | None => mret tt
  end;;
  logger Debug "Reading metadata response from peer" peerID;;
  r ← readMetadataStream stream peerID;
  match r with
  | inr err => mret (inr err)
  | inl metadataJSON =>
      logger Debug "Parsing metadata response" peerID;;
      match FromJSON metadataJSON with
      | inr err =>
          logger ErrorLevel "Failed to parse metadata from peer" peerID;;
          mret (inr (Wrap "failed to parse metadata from peer" err))
      | inl metadata =>
          logger Debug "Successfully retrieved metadata from peer" peerID;;
          mret (inl metadata)
      end
  end.

(** The deferred function: [Close], and the warning when it fails. *)
Definition deferred_Close (peerID : string) : Go M unit :=
  closeErr ← stream_Close peerID;
  match closeErr with
  | Some _ => logger Warn "failed to close stream" ""
  | None => mret tt
  end.

Lemma h_NewStream_fst p w : fst (h_NewStream p w) = snd (host_NewStream w p).
Proof. unfold h_NewStream. destruct (host_NewStream w p). reflexivity. Qed.

Lemma RequestPeerMetadata_run p w :
  let w1 := snd (logger Debug "Opening stream to peer for metadata request" p w) in
  let w2 := snd (h_NewStream p w1) in
  RequestPeerMetadata p w
  = match snd (host_NewStream w1 p) with
    | inr err =>
        (inr (Wrap "failed to open stream to peer" err),
         snd (logger ErrorLevel "Failed to open stream to peer" p w2))
    | inl stream =>
        (fst (read_and_parse stream p w2),
         snd (deferred_Close p (snd (read_and_parse stream p w2))))
    end.
Proof.
  cbv zeta. unfold RequestPeerMetadata. rewrite !Go_bind_unfold.
  rewrite h_NewStream_fst.
  destruct (snd (host_NewStream _ p)) as [stream|err].
  - fold (read_and_parse stream p). rewrite !Go_bind_unfold.
    unfold deferred_Close. rewrite Go_bind_unfold. reflexivity.
  - rewrite !Go_bind_unfold. reflexivity.
Qed.

Lemma silent_SetReadDeadline P p t :
  P (SetReadDeadline t) = false -> silent P (stream_SetReadDeadline p t).
Proof.
  intros He w. unfold stream_SetReadDeadline. cbn [snd trace].
  rewrite count_events_snoc, He. lia.
Qed.

Lemma silent_read_and_parse P stream p :
  (forall n, P (Read n) = false) -> (forall l m q, P (Log l m q) = false) ->
  (forall t, P (SetReadDeadline t) = false) ->
  silent P (read_and_parse stream p).
Proof.
  intros Hr Hl Hd. unfold read_and_parse.
  apply silent_bind; [apply silent_Now|]. intros t.
  apply silent_bind; [apply silent_SetReadDeadline, Hd|]. intros setDeadlineErr.
  apply silent_bind; [destruct setDeadlineErr; [apply silent_logger, Hl|apply silent_ret]|].
  intros _.
  apply silent_bind; [apply silent_emit, Hl|]. intros _.
  apply silent_bind; [apply silent_readMetadataStream; assumption|].
  intros [metadataJSON|err]; [|apply silent_ret].
  apply silent_bind; [apply silent_emit, Hl|]. intros _.
  destruct (FromJSON metadataJSON);
    (apply silent_bind; [apply silent_emit, Hl|]; intros _; apply silent_ret).
Qed.

Lemma read_and_parse_reads stream p w :
  count_events is_read (trace (snd (read_and_parse stream p w)))
  = (count_events is_read (trace w) + stream_reads stream)%nat.
Proof.
  unfold read_and_parse. rewrite !Go_bind_unfold.
  match goal with
  | |- context [readMetadataStream stream p ?w0] =>
      assert (Hw0 : count_events is_read (trace w0) = count_events is_read (trace w))
        by (rewrite silent_logger by reflexivity;
            match goal with
            | |- context [match ?e with _ => _ end] =>
                destruct e;
                [rewrite silent_logger by reflexivity|cbn [snd mret Go_ret]];
                rewrite silent_SetReadDeadline by reflexivity; reflexivity
            end);
      pose proof (readMetadataStream_reads stream p w0) as Hreads;
      rewrite Hw0 in Hreads; clear Hw0;
      destruct (readMetadataStream stream p w0) as [[metadataJSON|err] w3]
  end; cbn [fst snd] in *; [|exact Hreads].
  rewrite !Go_bind_unfold.
  destruct (FromJSON metadataJSON); rewrite !Go_bind_unfold;
    cbn [fst snd emit logger trace mret Go_ret]; rewrite !count_events_snoc; cbn [is_read];
    rewrite Hreads; lia.
Qed.

(** The deferred function adds [Close] to the trace and, when [Close]
    fails, the warning after it. *)
Lemma deferred_Close_trace p w :
  trace (snd (deferred_Close p w))
  = (trace w ++ Close :: match network_Close w p with
                         | Some _ => [Log Warn "failed to close stream" ""]
                         | None => []
                         end)%list.
Proof.
  unfold deferred_Close. rewrite Go_bind_unfold. unfold stream_Close. cbn [fst snd].
  destruct (network_Close w p); cbn [logger emit snd trace mret Go_ret];
    rewrite <- ?app_assoc; reflexivity.
Qed.

(** X5. [RequestPeerMetadata] dials the peer once. When the stream opens it
    is closed exactly once, after everything else, whether the reads and
    the decoding succeed or fail: only the warning about a [Close] that
    failed can follow the [Close]; and [Read] is called until the first
    error. When the stream does not open, the error is returned wrapped and
    nothing is read or closed. *)
Theorem RequestPeerMetadata_closes (peerID : string) (w : World M) :
  let w1 := snd (logger Debug "Opening stream to peer for metadata request" peerID w) in
  let r := RequestPeerMetadata peerID w in
  count_events is_dial (trace (snd r)) = (count_events is_dial (trace w) + 1)%nat /\
  match snd (host_NewStream w1 peerID) with
  | inl stream =>
      count_events is_close (trace (snd r)) = (count_events is_close (trace w) + 1)%nat /\
      (exists before after,
         trace (snd r) = (before ++ Close :: after)%list /\
         (after = [] \/ after = [Log Warn "failed to close stream" ""])) /\
      count_events is_read (trace (snd r))
      = (count_events is_read (trace w) + stream_reads stream)%nat
  | inr err =>
      fst r = inr (Wrap "failed to open stream to peer" err) /\
      count_events is_close (trace (snd r)) = count_events is_close (trace w) /\
      count_events is_read (trace (snd r)) = count_events is_read (trace w)
  end.
Proof.
  cbv zeta. rewrite RequestPeerMetadata_run. cbv zeta.
  set (w1 := snd (logger Debug "Opening stream to peer for metadata request" peerID w)).
  assert (H1 : forall P, P (NewStream peerID) = false ->
                 (forall l m q, P (Log l m q) = false) ->
                 count_events P (trace (snd (h_NewStream peerID w1))) = count_events P (trace w)).
  { intros P Hn Hl. rewrite silent_NewStream by exact Hn.
    subst w1. rewrite silent_logger by apply Hl. reflexivity. }
  assert (Hdial : count_events is_dial (trace (snd (h_NewStream peerID w1)))
                  = (count_events is_dial (trace w) + 1)%nat).
  { unfold h_NewStream. destruct (host_NewStream w1 peerID). cbn [snd trace].
    subst w1. cbn [logger emit snd trace]. rewrite !count_events_snoc. cbn [is_dial]. lia. }
  destruct (snd (host_NewStream w1 peerID)) as [stream|err]; cbn [fst snd].
  - rewrite deferred_Close_trace.
    set (w3 := snd (read_and_parse stream peerID (snd (h_NewStream peerID w1)))).
    assert (Hafter : forall P, P Close = false -> (forall l m q, P (Log l m q) = false) ->
              count_events P (Close :: match network_Close w3 peerID with
                                       | Some _ => [Log Warn "failed to close stream" ""]
                                       | None => []
                                       end) = 0%nat).
    { intros P Hc Hl. unfold count_events. cbn [List.filter]. rewrite Hc.
      destruct (network_Close w3 peerID); cbn [List.filter]; rewrite ?Hl; reflexivity. }
    assert (Hclose : count_events is_close
                       (Close :: match network_Close w3 peerID with
                                 | Some _ => [Log Warn "failed to close stream" ""]
                                 | None => []
                                 end) = 1%nat)
      by (destruct (network_Close w3 peerID); reflexivity).
    rewrite !count_events_app, Hclose, (Hafter is_dial), (Hafter is_read) by reflexivity.
    split; [|split; [|split]].
    + subst w3. rewrite silent_read_and_parse by reflexivity. rewrite Hdial. lia.
    + subst w3. rewrite silent_read_and_parse by reflexivity.
      rewrite H1 by reflexivity. reflexivity.
    + eexists _, _. split; [reflexivity|].
      destruct (network_Close w3 peerID); auto.
    + subst w3. rewrite read_and_parse_reads. rewrite H1 by reflexivity. lia.
  - cbn [logger emit snd trace]. rewrite !count_events_snoc. cbn [is_dial is_close is_read].
    rewrite Hdial, !H1 by reflexivity. repeat split; lia.
Qed.

Lemma silent_deferred_Close P p :
  P Close = false -> (forall l m q, P (Log l m q) = false) -> silent P (deferred_Close p).
Proof.
  intros Hc Hl w. rewrite deferred_Close_trace, count_events_app.
  unfold count_events at 2. cbn [List.filter]. rewrite Hc.
  destruct (network_Close w p); cbn [List.filter]; rewrite ?Hl; cbn; lia.
Qed.

Lemma RequestPeerMetadata_dials p w :
  count_events is_dial (trace (snd (RequestPeerMetadata p w)))
  = (count_events is_dial (trace w) + 1)%nat.
Proof.
  rewrite RequestPeerMetadata_run. cbv zeta.
  assert (Hdial : forall w1, count_events is_dial (trace (snd (h_NewStream p w1)))
                             = (count_events is_dial (trace w1) + 1)%nat).
  { intros w1. unfold h_NewStream. destruct (host_NewStream w1 p). cbn [snd trace].
    rewrite count_events_snoc. reflexivity. }
  destruct (snd (host_NewStream _ p)) as [stream|err]; cbn [snd].
  - rewrite silent_deferred_Close by reflexivity.
    rewrite silent_read_and_parse by reflexivity.
    rewrite Hdial, silent_logger by reflexivity. reflexivity.
  - rewrite silent_logger by reflexivity. rewrite Hdial, silent_logger by reflexivity.
    reflexivity.
Qed.

Lemma RequestPeerMetadata_closes_le p w :
  (count_events is_close (trace (snd (RequestPeerMetadata p w)))
   <= count_events is_close (trace w) + 1)%nat.
Proof.
  rewrite RequestPeerMetadata_run. cbv zeta.
  destruct (snd (host_NewStream _ p)) as [stream|err]; cbn [snd].
  - rewrite deferred_Close_trace, count_events_app.
    rewrite silent_read_and_parse, silent_NewStream, silent_logger by reflexivity.
    unfold count_events at 2. cbn [List.filter is_close].
    destruct (network_Close _ p); cbn; lia.
  - rewrite silent_logger, silent_NewStream, silent_logger by reflexivity. lia.
Qed.

(** **** What a candidate costs *)

Lemma silent_RequestPeerMetadata P p :
  (forall n, P (Read n) = false) -> (forall l m q, P (Log l m q) = false) ->
  (forall t, P (SetReadDeadline t) = false) -> P (NewStream p) = false -> P Close = false ->
  silent P (RequestPeerMetadata p).
Proof.
  intros Hr Hl Hd Hn Hc w. rewrite RequestPeerMetadata_run. cbv zeta.
  destruct (snd (host_NewStream _ p)) as [stream|err]; cbn [snd].
  - rewrite silent_deferred_Close by assumption. rewrite silent_read_and_parse by assumption.
    rewrite silent_NewStream by exact Hn. apply silent_logger, Hl.
  - rewrite silent_logger by apply Hl. rewrite silent_NewStream by exact Hn.
    apply silent_logger, Hl.
Qed.

Lemma processProvider_skipped_run provider w :
  skipped provider w = true ->
  processProvider provider w
  = (None, snd (logger Debug "Skipping peer that is already marked as unhealthy" (ID provider)
                  (checked_world provider w))).
Proof.
  unfold skipped, checked_world. intros Hs. unfold processProvider. cbv zeta.
  rewrite Go_bind_unfold. rewrite Go_bind_unfold in Hs.
  rewrite (Go_bind_unfold (unhealthy_check (ID provider))).
  rewrite Hs. rewrite !Go_bind_unfold. reflexivity.
Qed.

Lemma checked_world_silent P provider w :
  (forall l m q, P (Log l m q) = false) -> (forall q, P (CallIsPeerUnhealthy q) = false) ->
  count_events P (trace (checked_world provider w)) = count_events P (trace w).
Proof. intros Hl Hu. apply (silent_processProvider_head P provider Hl Hu). Qed.

Lemma fetch_silent P provider w :
  (forall n, P (Read n) = false) -> (forall l m q, P (Log l m q) = false) ->
  (forall t, P (SetReadDeadline t) = false) -> (forall q, P (NewStream q) = false) ->
  P Close = false -> (forall q, P (CallIsPeerUnhealthy q) = false) ->
  (forall d, P (Sleep d) = false) ->
  count_events P (trace (snd (fetch provider w))) = count_events P (trace w).
Proof.
  intros Hr Hl Hd Hn Hc Hu Hs. unfold fetch.
  rewrite silent_RequestPeerMetadata by auto.
  unfold time_Sleep. rewrite silent_bind; [apply checked_world_silent; assumption| |].
  - apply silent_emit, Hs.
  - intros _. apply silent_elapse.
Qed.

Lemma checked_world_is_Some provider w :
  bool_decide (is_Some (peerManager (checked_world provider w)))
  = bool_decide (is_Some (peerManager w)).
Proof.
  destruct (peerManager w) as [m|] eqn:Hm.
  - rewrite (checked_world_manager provider w m Hm). reflexivity.
  - unfold checked_world. rewrite Go_bind_unfold.
    rewrite unhealthy_check_None by exact Hm. cbn [snd logger emit peerManager].
    rewrite Hm. reflexivity.
Qed.

Lemma processProvider_marks_count provider w :
  count_events is_mark (trace (snd (processProvider provider w)))
  = (count_events is_mark (trace w)
     + if negb (skipped provider w)
          && fetch_failure (snd (host_NewStream (dial_world provider w) (ID provider)))
          && bool_decide (is_Some (peerManager w))
       then 1 else 0)%nat.
Proof.
  destruct (skipped provider w) eqn:Hs; cbn [negb andb].
  - rewrite processProvider_skipped_run by exact Hs. cbn [snd].
    rewrite silent_logger by reflexivity.
    rewrite checked_world_silent by reflexivity. lia.
  - rewrite processProvider_not_skipped by exact Hs.
    rewrite <- (fetch_fails provider w), <- (checked_world_is_Some provider w),
      <- (fetch_manager provider w).
    pose proof (fetch_silent is_mark provider w) as Hf.
    destruct (fetch provider w) as [[metadata|err] w4]; cbn [fst snd is_error andb] in *.
    + destruct (1 * Hour <? _); cbn [snd]; rewrite silent_logger by reflexivity;
        rewrite Hf by reflexivity; lia.
    + rewrite !Go_bind_unfold. unfold peerManager_not_nil. cbv beta.
      cbn [fst snd logger emit peerManager].
      destruct (bool_decide (is_Some (peerManager w4))).
      * unfold peerManager_MarkPeerAsRecentlyRemoved. cbn [snd trace].
        rewrite !count_events_snoc. cbn [is_mark]. rewrite Hf by reflexivity. lia.
      * cbn [snd mret Go_ret trace]. rewrite !count_events_snoc. cbn [is_mark].
        rewrite Hf by reflexivity. lia.
Qed.

(** X6. [processProvider] calls [MarkPeerAsRecentlyRemoved] once when the
    candidate was not skipped, its fetch failed and a peer manager was
    passed, and never otherwise. A fetch that succeeds returns the metadata
    exactly when it is at most an hour old: metadata that is too old is
    dropped without the peer being marked. *)
Theorem processProvider_marks (provider : AddrInfo) (w : World M) :
  count_events is_mark (trace (snd (processProvider provider w)))
  = (count_events is_mark (trace w)
     + if negb (skipped provider w)
          && fetch_failure (snd (host_NewStream (dial_world provider w) (ID provider)))
          && bool_decide (is_Some (peerManager w))
       then 1 else 0)%nat /\
  (forall metadata,
     skipped provider w = false ->
     fst (fetch provider w) = inl metadata ->
     fst (processProvider provider w)
     = (if 1 * Hour <? Since (now (snd (fetch provider w))) (LastUpdated metadata)
        then None else Some metadata) /\
     count_events is_mark (trace (snd (processProvider provider w)))
     = count_events is_mark (trace w)).
Proof.
  split; [apply processProvider_marks_count|].
  intros metadata Hs Hf. split.
  - rewrite processProvider_not_skipped by exact Hs. rewrite Hf.
    destruct (1 * Hour <? _); reflexivity.
  - rewrite processProvider_marks_count, Hs, <- (fetch_fails provider w), Hf. cbn. lia.
Qed.

(** Whether the candidate is dialed: one dial for each candidate that is
    not skipped. *)
Definition dialed (provider : AddrInfo) (w : World M) : nat :=
  if skipped provider w then 0 else 1.

Lemma processProvider_step provider w :
  let w' := snd (processProvider provider w) in
  count_events is_dial (trace w') = (count_events is_dial (trace w) + dialed provider w)%nat /\
  now w + 100 * Millisecond * Z.of_nat (dialed provider w) <= now w' /\
  (count_events is_close (trace w') <= count_events is_close (trace w) + dialed provider w)%nat /\
  (forall metadata, fst (processProvider provider w) = Some metadata -> dialed provider w = 1%nat).
Proof.
  cbv zeta. unfold dialed. destruct (skipped provider w) eqn:Hs.
  - rewrite processProvider_skipped_run by exact Hs. cbn [fst snd].
    rewrite !silent_logger by reflexivity. rewrite !checked_world_silent by reflexivity.
    pose proof (checked_world_clock provider w).
    cbn [logger emit snd now]. repeat split; try lia. discriminate.
  - rewrite processProvider_not_skipped by exact Hs.
    assert (Hdial : count_events is_dial (trace (snd (fetch provider w)))
                    = (count_events is_dial (trace w) + 1)%nat).
    { unfold fetch. rewrite RequestPeerMetadata_dials.
      unfold time_Sleep. rewrite silent_bind;
        [rewrite checked_world_silent by reflexivity; reflexivity
        |apply silent_emit; reflexivity
        |intros _; apply silent_elapse]. }
    assert (Hclose : (count_events is_close (trace (snd (fetch provider w)))
                      <= count_events is_close (trace w) + 1)%nat).
    { unfold fetch.
      pose proof (RequestPeerMetadata_closes_le (ID provider)
                    (snd (time_Sleep (100 * Millisecond) (checked_world provider w)))) as H.
      assert (E : count_events is_close
                    (trace (snd (time_Sleep (100 * Millisecond) (checked_world provider w))))
                  = count_events is_close (trace w)).
      { unfold time_Sleep. rewrite silent_bind;
          [apply checked_world_silent; reflexivity
          |apply silent_emit; reflexivity
          |intros _; apply silent_elapse]. }
      lia. }
    assert (Hclock : now w + 100 * Millisecond <= now (snd (fetch provider w))).
    { unfold fetch.
      pose proof (clock_mono_RequestPeerMetadata (ID provider)
                    (snd (time_Sleep (100 * Millisecond) (checked_world provider w)))) as H1.
      rewrite time_Sleep_now in H1 by (unfold Millisecond; lia).
      pose proof (checked_world_clock provider w). lia. }
    destruct (fetch provider w) as [[metadata|err] w4]; cbn [fst snd] in *.
    + destruct (1 * Hour <? _); cbn [fst snd]; rewrite !silent_logger by reflexivity;
        cbn [logger emit snd now]; repeat split; auto; lia.
    + rewrite !Go_bind_unfold. unfold peerManager_not_nil. cbv beta.
      cbn [fst snd logger emit peerManager].
      destruct (bool_decide (is_Some (peerManager w4)));
        [unfold peerManager_MarkPeerAsRecentlyRemoved|]; cbn [snd trace now mret Go_ret];
        rewrite !count_events_snoc; cbn [is_dial is_close]; repeat split; try lia; discriminate.
Qed.

Lemma DiscoverPeers_range_step providers : forall peers w,
  let r := DiscoverPeers_range providers peers w in
  exists dials : nat,
    count_events is_dial (trace (snd r)) = (count_events is_dial (trace w) + dials)%nat /\
    (length (fst r) <= length peers + dials)%nat /\
    (dials <= length providers)%nat /\
    now w + 100 * Millisecond * Z.of_nat dials <= now (snd r) /\
    (count_events is_close (trace (snd r)) <= count_events is_close (trace w) + dials)%nat.
Proof.
  induction providers as [|provider rest IH]; intros peers w; cbv zeta.
  - exists 0%nat. cbn. repeat split; lia.
  - rewrite DiscoverPeers_range_cons.
    destruct (processProvider_step provider w) as (Hd & Hn & Hc & Hr).
    match goal with
    | |- context [DiscoverPeers_range rest ?ps ?w1] =>
        destruct (IH ps w1) as (dials & Id & Il & Ip & In' & Ic)
    end.
    exists (dialed provider w + dials)%nat. cbn [length].
    assert (Hlen : (length (match fst (processProvider provider w) with
                            | Some metadata => peers ++ [metadata]
                            | None => peers
                            end) <= length peers + dialed provider w)%nat).
    { destruct (fst (processProvider provider w)) as [metadata|] eqn:E; [|lia].
      rewrite (Hr metadata eq_refl), List.length_app. cbn. lia. }
    assert (dialed provider w <= 1)%nat by (unfold dialed; destruct (skipped provider w); lia).
    repeat split; try lia.
Qed.

(** X7. [DiscoverPeers] handles the candidates one after the other: it
    dials each at most once, waits 100ms before every dial, closes no more
    streams than it dialed, and returns at most one Resource for each
    dial. *)
Theorem DiscoverPeers_dials (w : World M) :
  let r := DiscoverPeers w in
  let providers :=
    kadDHT_FindProvidersAsync (query_world w) (fst (GetPeerNamespaceCID PeerNamespace)) 10 in
  exists dials : nat,
    count_events is_dial (trace (snd r)) = (count_events is_dial (trace w) + dials)%nat /\
    (length (fst (fst r)) <= dials <= length providers)%nat /\
    now w + 100 * Millisecond * Z.of_nat dials <= now (snd r) /\
    (count_events is_close (trace (snd r)) <= count_events is_close (trace w) + dials)%nat.
Proof.
  cbv zeta. rewrite DiscoverPeers_unfold. cbv zeta. cbn [fst snd].
  match goal with
  | |- context [DiscoverPeers_range ?ps [] ?w1] =>
      destruct (DiscoverPeers_range_step ps [] w1) as (dials & Id & Il & Ip & In' & Ic)
  end.
  cbv zeta in *. exists dials.
  rewrite !silent_logger by reflexivity. rewrite Id.
  unfold kadDHT_FindProviders, query_world in *. cbn [logger emit snd trace now length] in *.
  rewrite !count_events_snoc in *. cbn [is_dial is_close] in *.
  repeat split; lia.
Qed.

End Discovery.

(** *** Bootstrap *)

Definition defaultBootstrapPeerAddr : string :=
  "/ip4/127.0.0.1/tcp/9000/p2p/12D3KooWLLUBEZhkEq6NtTLD99RRpEYdcbe8uzx3L56UgF5VK4bw".

Section Bootstrap.

Context {M : Type}.

(** go-multiaddr, libp2p and the DHT: the two parsers, the public bootstrap
    peers of the DHT package, and what dialing a peer and bootstrapping the
    routing table answer in a given world. *)
Variable Multiaddr : Type.
Variable NewMultiaddr : string -> Multiaddr + error.
Variable AddrInfoFromP2pAddr : Multiaddr -> AddrInfo + error.
Variable GetDefaultBootstrapPeerAddrInfos : list AddrInfo.
Variable host_Connect : World M -> AddrInfo -> option error.
Variable dht_Bootstrap : World M -> option error.

Definition h_Connect (peerInfo : AddrInfo) : Go M (option error) :=
  fun w =>
    let r := host_Connect w peerInfo in
    (r, {| now := now w; peerManager := peerManager w;
           trace := trace w ++ [Connect peerInfo r] |}).

Definition kadDHT_Bootstrap : Go M (option error) :=
  fun w =>
    let r := dht_Bootstrap w in
    (r, {| now := now w; peerManager := peerManager w;
           trace := trace w ++ [Bootstrap r] |}).

(** The loop over [customPeers]. *)
Fixpoint parse_customPeers (customPeers : list string) (bootstrapPeers : list AddrInfo)
    : Go M (list AddrInfo) :=
  match customPeers with
  | [] => mret bootstrapPeers
  | peerAddr :: customPeers =>
      match NewMultiaddr peerAddr with
      | inr err =>
          logger Debug "Failed to parse custom bootstrap peer address" peerAddr;;
          parse_customPeers customPeers bootstrapPeers
      | inl addr =>
          match AddrInfoFromP2pAddr addr with
          | inr err =>
              logger Debug "Failed to parse custom bootstrap peer info" peerAddr;;
              parse_customPeers customPeers bootstrapPeers
          | inl peerInfo =>
              parse_customPeers customPeers (bootstrapPeers ++ [peerInfo])
          end
      end
  end.

(** The loop over [bootstrapPeers]. *)
Fixpoint connect_bootstrapPeers (bootstrapPeers : list AddrInfo) : Go M unit :=
  match bootstrapPeers with
  | [] => mret tt
  | peerInfo :: bootstrapPeers =>
      r ← h_Connect peerInfo;
      match r with
      | Some err => logger Debug "Failed to connect to bootstrap" (ID peerInfo)
      | None => logger Debug "Connected to bootstrap" (ID peerInfo)
      end;;
      connect_bootstrapPeers bootstrapPeers
  end.

Definition BootstrapDHTWithPeers (customPeers : list string) : Go M (option error) :=
  bootstrapPeers ← (if 0 <? len customPeers
                    then parse_customPeers customPeers []
                    else mret []);
  bootstrapPeers ← (if len (bootstrapPeers : list AddrInfo) =? 0
                    then
                      match NewMultiaddr defaultBootstrapPeerAddr with
                      | inl addr =>
                          match AddrInfoFromP2pAddr addr with
                          | inr err =>
                              logger Debug "Failed to parse bootstrap peer info" "";;
                              mret GetDefaultBootstrapPeerAddrInfos
                          | inl peerInfo => mret [peerInfo]
                          end
                      | inr _ => mret GetDefaultBootstrapPeerAddrInfos
                      end
                    else mret bootstrapPeers);
  connect_bootstrapPeers bootstrapPeers;;
  r ← kadDHT_Bootstrap;
  match r with
  | Some err => mret (Some (Wrap "bootstrap DHT" err))
  | None => mret None
  end.

Definition BootstrapDHT : Go M (option error) := BootstrapDHTWithPeers [].

(** **** What the trace of a bootstrap shows *)

Definition connects (es : list Event) : list AddrInfo :=
  omap (fun e => match e with Connect p _ => Some p | _ => None end) es.

Definition bootstraps (es : list Event) : list (option error) :=
  omap (fun e => match e with Bootstrap r => Some r | _ => None end) es.

(** The log lines with a given message, and the dials that failed. *)
Definition logged (msg : string) (es : list Event) : nat :=
  length (List.filter (fun e => match e with
                                | Log _ m _ => String.eqb m msg
                                | _ => false
                                end) es).

Definition failed_connects (es : list Event) : nat :=
  length (List.filter (fun e => match e with
                                | Connect _ (Some _) => true
                                | _ => false
                                end) es).

(** The custom addresses that parse in both steps, in order. *)
Definition parsed_customPeers (customPeers : list string) : list AddrInfo :=
  omap (fun peerAddr =>
          match NewMultiaddr peerAddr with
          | inl addr =>
              match AddrInfoFromP2pAddr addr with
              | inl peerInfo => Some peerInfo
              | inr _ => None
              end
          | inr _ => None
          end) customPeers.

(** The built-in default set: the peer of [defaultBootstrapPeerAddr], or
    the public bootstrap peers of the DHT package when that address does not
    parse. *)
Definition default_bootstrapPeers : list AddrInfo :=
  match NewMultiaddr defaultBootstrapPeerAddr with
  | inl addr =>
      match AddrInfoFromP2pAddr addr with
      | inl peerInfo => [peerInfo]
      | inr _ => GetDefaultBootstrapPeerAddrInfos
      end
  | inr _ => GetDefaultBootstrapPeerAddrInfos
  end.

Definition chosen_bootstrapPeers (customPeers : list string) : list AddrInfo :=
  match parsed_customPeers customPeers with
  | [] => default_bootstrapPeers
  | peers => peers
  end.

Lemma Go_bind_unfold' {A B} (m : Go M A) (k : A -> Go M B) (w : World M) :
  (m ≫= k) w = k (fst (m w)) (snd (m w)).
Proof. unfold mbind, Go_bind. destruct (m w). reflexivity. Qed.

Lemma connects_app es1 es2 : connects (es1 ++ es2) = (connects es1 ++ connects es2)%list.
Proof. apply omap_app. Qed.

Lemma bootstraps_app es1 es2 : bootstraps (es1 ++ es2) = (bootstraps es1 ++ bootstraps es2)%list.
Proof. apply omap_app. Qed.

Lemma logged_app msg es1 es2 : logged msg (es1 ++ es2) = (logged msg es1 + logged msg es2)%nat.
Proof. unfold logged. rewrite List.filter_app, List.length_app. reflexivity. Qed.

Lemma failed_connects_app es1 es2 :
  failed_connects (es1 ++ es2) = (failed_connects es1 + failed_connects es2)%nat.
Proof. unfold failed_connects. rewrite List.filter_app, List.length_app. reflexivity. Qed.

Ltac split_events :=
  rewrite ?connects_app, ?bootstraps_app, ?logged_app, ?failed_connects_app.

(** What a stretch of the trace holds: no dial and no bootstrap. *)
Definition quiet (es : list Event) : Prop :=
  connects es = [] /\ bootstraps es = [] /\ failed_connects es = 0%nat /\
  logged "Failed to connect to bootstrap" es = 0%nat.

Lemma parse_customPeers_spec customPeers : forall bootstrapPeers w,
  fst (parse_customPeers customPeers bootstrapPeers w)
  = (bootstrapPeers ++ parsed_customPeers customPeers)%list /\
  exists es, trace (snd (parse_customPeers customPeers bootstrapPeers w)) = (trace w ++ es)%list /\
             quiet es /\
             (logged "Failed to parse custom bootstrap peer address" es
              + logged "Failed to parse custom bootstrap peer info" es
              + length (parsed_customPeers customPeers) = length customPeers)%nat.
Proof.
  induction customPeers as [|peerAddr rest IH]; intros acc w.
  - cbn. rewrite app_nil_r. split; [reflexivity|]. exists []. rewrite app_nil_r.
    unfold quiet. cbn. repeat split.
  - cbn [parse_customPeers]. unfold parsed_customPeers. cbn [omap list_omap].
    fold (parsed_customPeers rest).
    destruct (NewMultiaddr peerAddr) as [addr|err].
    + destruct (AddrInfoFromP2pAddr addr) as [peerInfo|err].
      * destruct (IH (acc ++ [peerInfo])%list w) as [E (es & Ht & Hq & Hn)].
        rewrite E, <- app_assoc. split; [reflexivity|]. exists es.
        split; [exact Ht|]. split; [exact Hq|]. cbn [length]. lia.
      * rewrite Go_bind_unfold'. cbn [logger emit fst snd].
        match goal with |- context [parse_customPeers rest acc ?w1] =>
          destruct (IH acc w1) as [E (es & Ht & (Hc & Hb & Hf & Hl) & Hn)] end.
        split; [exact E|]. rewrite Ht. cbn [trace]. rewrite <- app_assoc.
        eexists. split; [reflexivity|]. unfold quiet. split_events.
        rewrite Hc, Hb, Hf, Hl. cbn. repeat split. lia.
    + rewrite Go_bind_unfold'. cbn [logger emit fst snd].
      match goal with |- context [parse_customPeers rest acc ?w1] =>
        destruct (IH acc w1) as [E (es & Ht & (Hc & Hb & Hf & Hl) & Hn)] end.
      split; [exact E|]. rewrite Ht. cbn [trace]. rewrite <- app_assoc.
      eexists. split; [reflexivity|]. unfold quiet. split_events.
      rewrite Hc, Hb, Hf, Hl. cbn. repeat split. lia.
Qed.

Lemma connect_bootstrapPeers_spec bootstrapPeers : forall w,
  exists es, trace (snd (connect_bootstrapPeers bootstrapPeers w)) = (trace w ++ es)%list /\
             connects es = bootstrapPeers /\ bootstraps es = [] /\
             logged "Failed to connect to bootstrap" es = failed_connects es /\
             logged "Failed to parse custom bootstrap peer address" es = 0%nat /\
             logged "Failed to parse custom bootstrap peer info" es = 0%nat.
Proof.
  induction bootstrapPeers as [|peerInfo rest IH]; intros w.
  - exists []. cbn. rewrite app_nil_r. repeat split.
  - cbn [connect_bootstrapPeers]. rewrite !Go_bind_unfold'.
    unfold h_Connect. cbn [fst snd].
    destruct (host_Connect w peerInfo) as [err|]; cbn [logger emit fst snd];
      match goal with |- context [connect_bootstrapPeers rest ?w1] =>
        destruct (IH w1) as (es & Ht & Hc & Hb & Hl & Ha & Hi) end;
      rewrite Ht; cbn [trace]; rewrite <- !app_assoc;
      (eexists; split; [reflexivity|]);
      split_events; rewrite Hc, Hb, Hl, Ha, Hi; cbn; auto 10.
Qed.

(** C6. [BootstrapDHTWithPeers] returns an error exactly when the bootstrap
    of the routing table does, wrapping that error. Before that call it
    dials, in order, the custom peers whose address parses, or the built-in
    default set when there is none (no custom peer given, or none that
    parses). Each custom address that does not parse and each dial that
    fails leaves one log line and nothing else: whatever the dials answer,
    the routing-table bootstrap is called once and alone decides the
    result. *)
Theorem BootstrapDHTWithPeers_error (customPeers : list string) (w : World M) :
  let r := BootstrapDHTWithPeers customPeers w in
  exists (es : list Event) (result : option error),
    trace (snd r) = (trace w ++ es)%list /\
    connects es = chosen_bootstrapPeers customPeers /\
    bootstraps es = [result] /\
    fst r = Wrap "bootstrap DHT" <$> result /\
    (fst r = None <-> result = None) /\
    (logged "Failed to parse custom bootstrap peer address" es
     + logged "Failed to parse custom bootstrap peer info" es
     + length (parsed_customPeers customPeers) = length customPeers)%nat /\
    logged "Failed to connect to bootstrap" es = failed_connects es.
Proof.
  cbv zeta. unfold BootstrapDHTWithPeers.
  rewrite Go_bind_unfold'.
  (* the parsing loop *)
  assert (Hparse : exists w1 es1,
            (if 0 <? len customPeers then parse_customPeers customPeers [] else mret []) w
            = (parsed_customPeers customPeers, w1) /\
            trace w1 = (trace w ++ es1)%list /\ quiet es1 /\
            (logged "Failed to parse custom bootstrap peer address" es1
             + logged "Failed to parse custom bootstrap peer info" es1
             + length (parsed_customPeers customPeers) = length customPeers)%nat).
  { destruct customPeers as [|c cs].
    - exists w, []. cbn. rewrite app_nil_r. unfold quiet. cbn. auto 10.
    - replace (0 <? len (c :: cs)) with true by (symmetry; apply Z.ltb_lt; unfold len; cbn; lia).
      destruct (parse_customPeers_spec (c :: cs) [] w) as [E (es & Ht & Hq & Hn)].
      destruct (parse_customPeers (c :: cs) [] w) as [ps w1]. cbn [fst snd] in *. subst ps.
      exists w1, es. auto. }
  destruct Hparse as (w1 & es1 & -> & Ht1 & (Hc1 & Hb1 & Hf1 & Hl1) & Hn1). cbn [fst snd].
  rewrite Go_bind_unfold'.
  (* the fallback *)
  assert (Hdef : exists w2 es2,
            (if len (parsed_customPeers customPeers) =? 0
             then match NewMultiaddr defaultBootstrapPeerAddr with
                  | inl addr =>
                      match AddrInfoFromP2pAddr addr with
                      | inl peerInfo => mret [peerInfo]
                      | inr _ =>
                          logger Debug "Failed to parse bootstrap peer info" "";;
                          mret GetDefaultBootstrapPeerAddrInfos
                      end
                  | inr _ => mret GetDefaultBootstrapPeerAddrInfos
                  end
             else mret (parsed_customPeers customPeers)) w1
            = (chosen_bootstrapPeers customPeers, w2) /\
            trace w2 = (trace w1 ++ es2)%list /\ quiet es2 /\
            logged "Failed to parse custom bootstrap peer address" es2 = 0%nat /\
            logged "Failed to parse custom bootstrap peer info" es2 = 0%nat).
  { unfold chosen_bootstrapPeers, default_bootstrapPeers, quiet.
    destruct (parsed_customPeers customPeers) as [|p ps].
    - replace (len (@nil AddrInfo) =? 0) with true by reflexivity. cbv iota.
      destruct (NewMultiaddr defaultBootstrapPeerAddr) as [addr|err].
      + destruct (AddrInfoFromP2pAddr addr) as [peerInfo|err].
        * exists w1, []. cbn. rewrite app_nil_r. auto 10.
        * eexists _, [_]. split; [rewrite Go_bind_unfold'; reflexivity|]. cbn. auto 10.
      + exists w1, []. cbn. rewrite app_nil_r. auto 10.
    - replace (len (p :: ps) =? 0) with false
        by (symmetry; apply Z.eqb_neq; unfold len; cbn; lia).
      exists w1, []. cbn. rewrite app_nil_r. auto 10. }
  destruct Hdef as (w2 & es2 & -> & Ht2 & (Hc2 & Hb2 & Hf2 & Hl2) & Ha2 & Hi2). cbn [fst snd].
  rewrite !Go_bind_unfold'.
  destruct (connect_bootstrapPeers_spec (chosen_bootstrapPeers customPeers) w2)
    as (es3 & Ht3 & Hc3 & Hb3 & Hl3 & Ha3 & Hi3).
  set (w3 := snd (connect_bootstrapPeers (chosen_bootstrapPeers customPeers) w2)) in *.
  unfold kadDHT_Bootstrap. cbn [fst snd].
  exists (es1 ++ es2 ++ es3 ++ [Bootstrap (dht_Bootstrap w3)])%list, (dht_Bootstrap w3).
  destruct (dht_Bootstrap w3) as [err|] eqn:Eb; cbn [fst snd trace fmap option_fmap option_map];
    rewrite Ht3, Ht2, Ht1, <- !app_assoc; split_events;
    rewrite Hc1, Hc2, Hc3, Hb1, Hb2, Hb3, Hf1, Hf2, Hl1, Hl2, Hl3, Ha2, Hi2, Ha3, Hi3; cbn;
    rewrite ?app_nil_r; repeat split; intros; try congruence; lia.
Qed.

End Bootstrap.

(** *** The namespace CID determines the namespace *)

(** The continuation byte of a varint: the low seven bits, with the high
    bit set. *)
Lemma lor_128 (a : Z) : 0 <= a < 256 -> Z.lor a 128 = a mod 128 + 128.
Proof.
  intros Ha.
  rewrite (Z.div_mod a 128) at 1 by lia.
  assert (Hq : a / 128 = 0 \/ a / 128 = 1).
  { assert (0 <= a / 128 < 2)
      by (split; [apply Z.div_pos; lia | apply Z.div_lt_upper_bound; lia]).
    lia. }
  assert (Hr : 0 <= a mod 128 < 128) by (apply Z.mod_pos_bound; lia).
  assert (Hl : Z.land (a mod 128) 128 = 0).
  { change 128 with (2 ^ 7). apply Z.bits_inj'. intros n Hn.
    rewrite Z.land_spec, Z.bits_0.
    destruct (Z.eq_dec n 7) as [->|Hne].
    - rewrite Z.mod_pow2_bits_high by lia. reflexivity.
    - rewrite (Z.pow2_bits_false 7 n) by lia. apply andb_false_r. }
  assert (Hadd : Z.lor (a mod 128) 128 = a mod 128 + 128).
  { pose proof (Z.add_lor_land (a mod 128) 128) as H. rewrite Hl in H. lia. }
  destruct Hq as [-> | ->].
  - rewrite Z.mul_0_r, Z.add_0_l. exact Hadd.
  - rewrite Z.mul_1_r. rewrite (Z.add_comm 128), <- Hadd, <- Z.lor_assoc, Z.lor_diag.
    reflexivity.
Qed.

(** Varints are a prefix code: what follows a varint in a byte string is
    determined, and so is the number. *)
Lemma PutUvarint_loop_prefix (n : nat) : forall (m : nat) (x y : Z) (r r' : list Z),
  (0 < n)%nat -> (0 < m)%nat ->
  0 <= x < 2 ^ (7 * Z.of_nat n) -> 0 <= y < 2 ^ (7 * Z.of_nat m) ->
  (PutUvarint_loop n x ++ r = PutUvarint_loop m y ++ r')%list ->
  x = y /\ r = r'.
Proof.
  induction n as [|n IH]; intros m x y r r' Hn Hm Hx Hy; [lia|].
  destruct m as [|m]; [lia|]. cbn [PutUvarint_loop].
  assert (Hbyte : forall z, 128 <= Z.lor (z mod 256) 128 /\
                            Z.lor (z mod 256) 128 = z mod 128 + 128).
  { intros z. pose proof (Z.mod_pos_bound z 256 ltac:(lia)) as Hz.
    rewrite lor_128 by exact Hz.
    replace ((z mod 256) mod 128) with (z mod 128).
    - pose proof (Z.mod_pos_bound z 128 ltac:(lia)). lia.
    - rewrite (Z.mod_eq z 256) by lia.
      replace (z - 256 * (z / 256)) with (z + (- 2 * (z / 256)) * 128) by lia.
      rewrite Z.mod_add by lia. reflexivity. }
  assert (Hshift : forall (k : nat) z, 0 <= z < 2 ^ (7 * Z.of_nat (S k)) -> 128 <= z ->
                     (0 < k)%nat /\ 0 <= Z.shiftr z 7 < 2 ^ (7 * Z.of_nat k)).
  { intros k z Hz Hge. destruct k as [|k]; [cbn in Hz; lia|]. split; [lia|].
    rewrite Z.shiftr_div_pow2 by lia. split.
    - apply Z.div_pos; lia.
    - apply Z.div_lt_upper_bound; [lia|].
      replace (7 * Z.of_nat (S (S k))) with (7 + 7 * Z.of_nat (S k)) in Hz by lia.
      rewrite Z.pow_add_r in Hz by lia. lia. }
  destruct (128 <=? x) eqn:Ex, (128 <=? y) eqn:Ey;
    try apply Z.leb_le in Ex; try apply Z.leb_le in Ey;
    try apply Z.leb_gt in Ex; try apply Z.leb_gt in Ey;
    cbn [app]; intros H; injection H as Hhead Htail.
  - destruct (Hshift n x Hx Ex) as [Hn' Hx'], (Hshift m y Hy Ey) as [Hm' Hy'].
    destruct (IH m _ _ _ _ Hn' Hm' Hx' Hy' Htail) as [Hs ->]. split; [|reflexivity].
    destruct (Hbyte x) as [_ Hbx], (Hbyte y) as [_ Hby].
    rewrite Hbx, Hby in Hhead. rewrite !Z.shiftr_div_pow2 in Hs by lia.
    change (2 ^ 7) with 128 in Hs.
    rewrite (Z.div_mod x 128), (Z.div_mod y 128) by lia. lia.
  - destruct (Hbyte x) as [Hbx _]. lia.
  - destruct (Hbyte y) as [Hby _]. lia.
  - split; [exact Hhead | exact Htail].
Qed.

Lemma PutUvarint_prefix (x y : Z) (r r' : list Z) :
  (PutUvarint x ++ r = PutUvarint y ++ r')%list -> r = r'.
Proof.
  unfold PutUvarint. intros H.
  assert (Hb : forall z, 0 <= z mod 2 ^ 64 < 2 ^ (7 * Z.of_nat 10)).
  { intros z. pose proof (Z.mod_pos_bound z (2 ^ 64) ltac:(lia)) as Hz.
    split; [lia|]. eapply Z.lt_le_trans; [apply Hz|]. apply Z.pow_le_mono_r; lia. }
  apply (PutUvarint_loop_prefix 10 10 _ _ _ _ ltac:(lia) ltac:(lia) (Hb x) (Hb y) H).
Qed.

Lemma bytes_of_string_inj (s t : string) : bytes_of_string s = bytes_of_string t -> s = t.
Proof.
  revert t. induction s as [|c s IH]; intros [|d t]; cbn [bytes_of_string];
    try discriminate; [reflexivity|].
  intros H. injection H as Hc Hs. f_equal; [|apply IH; exact Hs].
  apply N2Z.inj in Hc.
  rewrite <- (ascii_N_embedding c), <- (ascii_N_embedding d), Hc. reflexivity.
Qed.

(** X8. The CID of the discovery namespace determines the namespace: two
    namespace constants give the same CID only if they are the same
    string. *)
Theorem GetPeerNamespaceCID_injective (namespace1 namespace2 : string) :
  fst (GetPeerNamespaceCID namespace1) = fst (GetPeerNamespaceCID namespace2)
  <-> namespace1 = namespace2.
Proof.
  split; [|intros ->; reflexivity].
  unfold GetPeerNamespaceCID. rewrite !Sum_IDENTITY_total. cbn [fst].
  unfold NewCidV1. intros H.
  apply app_inv_head in H. apply app_inv_head in H. apply app_inv_head in H.
  apply PutUvarint_prefix in H. apply bytes_of_string_inj. exact H.
Qed.

(** *** Advertising

    The package variable [advertiseInterval], 10 seconds at start, is
    passed explicitly. The loop of [AdvertiseModel] is run on the cases its
    [select] takes, in order: a tick of the ticker, or the cancellation of
    the context. *)

Definition advertiseInterval_init : Z := 10 * Second.

Definition SetTestMode (advertiseInterval : Z) : Z := 2 * Second.

Definition GetAdvertiseInterval (advertiseInterval : Z) : Z := advertiseInterval.

Inductive Selected := ticker_C | ctx_Done.

Inductive AdvertiseEvent :=
| NewTicker (d : Z)
| ticker_Stop
| Provide (key : list Z) (result : option error)
| LogDebug (msg : string).

Section Advertise.

(** [cid.Parse] on a string, and what [kadDHT.Provide] answers after the
    calls made so far. *)
Variable cid_Parse : string -> list Z + error.
Variable kadDHT_Provide : list AdvertiseEvent -> list Z -> option error.

(** The [for] loop: whether it returned, or is still waiting in [select]
    when the cases run out. *)
Fixpoint AdvertiseModel_loop (selected : list Selected) (namespace : string)
    (trace : list AdvertiseEvent) : bool * list AdvertiseEvent :=
  match selected with
  | [] => (false, trace)
  | ticker_C :: selected =>
      match cid_Parse namespace with
      | inr err =>
          AdvertiseModel_loop selected namespace
            (trace ++ [LogDebug "Failed to parse namespace as CID"])
      | inl c =>
          let err := kadDHT_Provide trace c in
          let trace := (trace ++ [Provide c err])%list in
          match err with
          | Some _ =>
              AdvertiseModel_loop selected namespace
                (trace ++ [LogDebug "Failed to advertise model"])
          | None =>
              AdvertiseModel_loop selected namespace
                (trace ++ [LogDebug "Model advertised successfully"])
          end
      end
  | ctx_Done :: _ => (true, trace)
  end.

(** [AdvertiseModel]: [time.NewTicker] panics on an interval that is not
    positive ([None]); the deferred [ticker.Stop()] runs when the loop
    returns. *)
Definition AdvertiseModel (advertiseInterval : Z) (selected : list Selected) (namespace : string)
    : option (bool * list AdvertiseEvent) :=
  if advertiseInterval <=? 0 then None
  else
    let trace := [NewTicker advertiseInterval] in
    let (returned, trace) := AdvertiseModel_loop selected namespace trace in
    if returned then Some (true, trace ++ [ticker_Stop])%list else Some (false, trace).










End Advertise.

(** *** The host and the DHT of a node *)

Definition defaultListenAddrs : list string := ["/ip4/0.0.0.0/tcp/0"].

Section NewHostAndDHT.

(** libp2p and the DHT package: key and handle types and the two
    constructors. *)
Variables PrivKey Host IpfsDHT : Type.

Inductive libp2p_Option :=
| ListenAddrStrings (listenAddrs : list string)
| Identity (privKey : PrivKey)
| EnableHolePunching
| EnableAutoRelayWithStaticRelays (staticRelays : list AddrInfo).

Variable libp2p_New : list libp2p_Option -> Host + error.
Variable dht_New : Host -> IpfsDHT + error.

(** The options [NewHostAndDHT] gives to [libp2p.New], given the value of
    the environment variable [CROWDLLAMA_TEST_MODE]. *)
Definition NewHostAndDHT_options (CROWDLLAMA_TEST_MODE : string) (privKey : PrivKey)
    : list libp2p_Option :=
  let libp2pOpts := [ListenAddrStrings defaultListenAddrs; Identity privKey] in
  if negb (String.eqb CROWDLLAMA_TEST_MODE "1")
  then
    let staticRelays : list AddrInfo := [] in
    let libp2pOpts := (libp2pOpts ++ [EnableHolePunching])%list in
    if 0 <? len staticRelays
    then (libp2pOpts ++ [EnableAutoRelayWithStaticRelays staticRelays])%list
    else libp2pOpts
  else libp2pOpts.

Definition NewHostAndDHT (CROWDLLAMA_TEST_MODE : string) (privKey : PrivKey)
    : option Host * option IpfsDHT * option error :=
  let libp2pOpts := NewHostAndDHT_options CROWDLLAMA_TEST_MODE privKey in
  match libp2p_New libp2pOpts with
  | inr err => (None, None, Some (Wrap "create libp2p host" err))
  | inl h =>
      match dht_New h with
      | inr err => (None, None, Some (Wrap "create DHT instance" err))
      | inl kadDHT => (Some h, Some kadDHT, None)
      end
  end.

(** X10. [NewHostAndDHT] never enables auto-relay, whatever the environment:
    it asks libp2p for the default listen address and the given identity,
    and for hole punching unless the test mode is on. It returns a host and
    a DHT together and no error, or an error and neither: the host when
    [libp2p.New] fails, and also when it succeeds and [dht.New] fails. *)
Theorem NewHostAndDHT_outcome (CROWDLLAMA_TEST_MODE : string) (privKey : PrivKey) :
  let opts := NewHostAndDHT_options CROWDLLAMA_TEST_MODE privKey in
  (forall staticRelays, ~ In (EnableAutoRelayWithStaticRelays staticRelays) opts) /\
  (In EnableHolePunching opts <-> CROWDLLAMA_TEST_MODE <> "1") /\
  (exists rest, opts = [ListenAddrStrings defaultListenAddrs; Identity privKey] ++ rest)%list /\
  match NewHostAndDHT CROWDLLAMA_TEST_MODE privKey with
  | (Some h, Some kadDHT, None) => libp2p_New opts = inl h /\ dht_New h = inl kadDHT
  | (None, None, Some err) =>
      (exists err0, libp2p_New opts = inr err0 /\ err = Wrap "create libp2p host" err0) \/
      (exists h err0, libp2p_New opts = inl h /\ dht_New h = inr err0 /\
                      err = Wrap "create DHT instance" err0)
  | _ => False
  end.
Proof.
  cbv zeta. unfold NewHostAndDHT. cbv zeta.
  assert (E : NewHostAndDHT_options CROWDLLAMA_TEST_MODE privKey
              = ([ListenAddrStrings defaultListenAddrs; Identity privKey]
                 ++ if String.eqb CROWDLLAMA_TEST_MODE "1" then [] else [EnableHolePunching])%list).
  { unfold NewHostAndDHT_options. cbv zeta.
    destruct (String.eqb CROWDLLAMA_TEST_MODE "1"); reflexivity. }
  rewrite E. clear E.
  assert (Hresult :
    forall opts,
      match
        match libp2p_New opts with
        | inl h =>
            match dht_New h with
            | inl kadDHT => (Some h, Some kadDHT, None)
            | inr err => (None, None, Some (Wrap "create DHT instance" err))
            end
        | inr err => (None, None, Some (Wrap "create libp2p host" err))
        end
      with
      | (Some h, Some kadDHT, None) => libp2p_New opts = inl h /\ dht_New h = inl kadDHT
      | (None, None, Some err) =>
          (exists err0, libp2p_New opts = inr err0 /\ err = Wrap "create libp2p host" err0) \/
          (exists h err0, libp2p_New opts = inl h /\ dht_New h = inr err0 /\
                          err = Wrap "create DHT instance" err0)
      | _ => False
      end).
  { intros opts. destruct (libp2p_New opts) as [h|err]; [|left; eauto].
    destruct (dht_New h) as [kadDHT|err] eqn:Ed; [auto|right; eauto]. }
  destruct (String.eqb_spec CROWDLLAMA_TEST_MODE "1") as [Heq|Hne]; cbn [app].
  - split; [intros staticRelays [H|[H|[]]]; discriminate H|].
    split; [split; [intros [H|[H|[]]]; discriminate H | intros H; contradiction]|].
    split; [exists []; reflexivity|]. apply Hresult.
  - split; [intros staticRelays [H|[H|[H|[]]]]; discriminate H|].
    split; [split; [intros _; exact Hne | intros _; right; right; left; reflexivity]|].
    split; [exists [EnableHolePunching]; reflexivity|]. apply Hresult.
Qed.

End NewHostAndDHT.

(** *** A small network, to run the discoverer on *)

Module Sample.

(** A peer manager that keeps the list of the peers it was told to
    remove, and calls those unhealthy. *)
#[export] Instance tombstones : PeerManager (list string) := {|
  MarkPeerAsRecentlyRemoved m peerID := peerID :: m;
  IsPeerUnhealthy m peerID := (existsb (String.eqb peerID) m, m)
|}.

Record Resource := { GPUModel : string; LastUpdated : Z }.

(** A decoder for a two-byte payload: an opening brace, then the age stamp
    in units of ten seconds. *)
Definition FromJSON (b : list Z) : Resource + error :=
  match b with
  | [123; t] => inl {| GPUModel := "RTX 4090"; LastUpdated := t * (10 * Second) |}
  | _ => inr (Err "invalid character looking for beginning of value")
  end.

(** peerA answers in two reads; peerEmpty closes the stream at once;
    peerGarbled sends bytes that do not decode; peerSlow lets the read
    deadline pass; nobody else can be dialed. *)
Definition host_NewStream (w : World (list string)) (peerID : string) : N * (Stream + error) :=
  if String.eqb peerID "peerA"
  then (50000000%N, inl (Chunk 1000000 [123] (Last 2000000 [94] EOF)))
  else if String.eqb peerID "peerEmpty" then (0%N, inl (Last 0 [] EOF))
  else if String.eqb peerID "peerGarbled" then (0%N, inl (Last 0 [60; 104] EOF))
  else if String.eqb peerID "peerSlow"
       then (0%N, inl (Chunk 0 [123] (Last 5000000000 [] (Err "i/o deadline reached"))))
  else (0%N, inr (Err "failed to dial")).

(** Setting the read deadline succeeds; closing the stream to peerGarbled
    fails. *)
Definition network_SetReadDeadline (w : World (list string)) (peerID : string) (t : Z)
    : option error := None.

Definition network_Close (w : World (list string)) (peerID : string) : option error :=
  if String.eqb peerID "peerGarbled" then Some (Err "stream reset") else None.

Definition peer (peerID : string) : AddrInfo := {| ID := peerID; Addrs := [] |}.

Definition no_providers (w : World (list string)) (key : list Z) (count : Z) : list AddrInfo := [].

Definition providers (w : World (list string)) (key : list Z) (count : Z) : list AddrInfo :=
  [peer "peerA"; peer "peerEmpty"; peer "peerDown"; peer "peerGarbled"; peer "peerSlow"].

(** The world at second 1000, with a peer manager that has removed
    [removed], or without one. *)
Definition world (removed : list string) : World (list string) :=
  {| now := 1000 * Second; peerManager := Some removed; trace := [] |}.

Definition world_without_manager : World (list string) :=
  {| now := 1000 * Second; peerManager := None; trace := [] |}.

Definition processProvider :=
  discovery.processProvider Resource LastUpdated FromJSON host_NewStream
    network_SetReadDeadline network_Close.

Definition DiscoverPeers :=
  discovery.DiscoverPeers Resource LastUpdated FromJSON "crowdllama-ns" host_NewStream
    network_SetReadDeadline network_Close.

(** The stream to peerGarbled does not close cleanly: the warning is logged
    after the [Close], and nothing else follows. *)
Example RequestPeerMetadata_close_fails :
  trace (snd (RequestPeerMetadata Resource FromJSON host_NewStream
                network_SetReadDeadline network_Close "peerGarbled" (world [])))
  = [Log Debug "Opening stream to peer for metadata request" "peerGarbled";
     NewStream "peerGarbled"; SetReadDeadline (1005 * Second);
     Log Debug "Reading metadata response from peer" "peerGarbled";
     Read 2; Log Debug "Read bytes from metadata stream" "peerGarbled";
     Log Debug "Received EOF from metadata stream" "peerGarbled";
     Log Debug "Parsing metadata response" "peerGarbled";
     Log ErrorLevel "Failed to parse metadata from peer" "peerGarbled";
     Close; Log Warn "failed to close stream" ""].
Proof. vm_compute. reflexivity. Qed.

Example processProvider_peerA :
  fst (processProvider (peer "peerA") (world []))
  = Some {| GPUModel := "RTX 4090"; LastUpdated := 940 * Second |}.
Proof. vm_compute. reflexivity. Qed.

Example DiscoverPeers_providers :
  fst (DiscoverPeers providers (world []))
  = ([{| GPUModel := "RTX 4090"; LastUpdated := 940 * Second |}], None) /\
  peerManager (snd (DiscoverPeers providers (world [])))
  = Some ["peerSlow"; "peerGarbled"; "peerDown"; "peerEmpty"].
Proof. vm_compute. split; reflexivity. Qed.

(** C1, as stated, fails: in test mode [getPeerManagerConfig] sets
    [MaxMetadataAge] to 30 seconds, and [processProvider] returns the
    Resource of peerA, which is a minute old. *)
Lemma processProvider_exceeds_MaxMetadataAge :
  ~ (forall (cfg : dht.Config) (provider : AddrInfo) (w : World (list string))
            (metadata : Resource),
       fst (processProvider provider w) = Some metadata ->
       Since (now (snd (processProvider provider w))) (LastUpdated metadata)
       <= dht.MaxMetadataAge (dht.PeerHealth cfg)).
Proof.
  intros H.
  pose (dflt := {| dht.DiscoveryInterval := 0; dht.AdvertisingInterval := 0;
                   dht.MetadataUpdateInterval := 0;
                   dht.PeerHealth :=
                     {| dht.StalePeerTimeout := 0; dht.HealthCheckInterval := 0;
                        dht.MaxFailedAttempts := 0; dht.BackoffBase := 0;
                        dht.MetadataTimeout := 0; dht.MaxMetadataAge := 0 |} |}).
  specialize (H (dht.getPeerManagerConfig "1" dflt) (peer "peerA") (world []) _
                processProvider_peerA).
  vm_compute in H. apply H. reflexivity.
Qed.

Lemma processProvider_fresh_witness :
  fst (discovery.processProvider Resource LastUpdated FromJSON host_NewStream
         network_SetReadDeadline network_Close
         (peer "peerA") (world []))
  = Some {| GPUModel := "RTX 4090"; LastUpdated := 940 * Second |} /\
  Since (now (snd (discovery.processProvider Resource LastUpdated FromJSON host_NewStream
                     network_SetReadDeadline network_Close
                     (peer "peerA") (world []))))
        (LastUpdated {| GPUModel := "RTX 4090"; LastUpdated := 940 * Second |})
  <= 1 * Hour.
Proof.
  assert (H : fst (discovery.processProvider Resource LastUpdated FromJSON host_NewStream
                     network_SetReadDeadline network_Close
                     (peer "peerA") (world []))
              = Some {| GPUModel := "RTX 4090"; LastUpdated := 940 * Second |})
    by (vm_compute; reflexivity).
  exact (conj H (proj1 (processProvider_fresh Resource LastUpdated FromJSON "crowdllama-ns"
                          host_NewStream network_SetReadDeadline network_Close providers)
                   (peer "peerA") (world [])
                   {| GPUModel := "RTX 4090"; LastUpdated := 940 * Second |} H)).
Defined.

Lemma DiscoverPeers_errors_witness :
  no_providers (query_world (world [])) (fst (GetPeerNamespaceCID "crowdllama-ns")) 10 = [] /\
  fst (DiscoverPeers no_providers (world [])) = ([], None).
Proof.
  assert (H : no_providers (query_world (world []))
                (fst (GetPeerNamespaceCID "crowdllama-ns")) 10 = [])
    by reflexivity.
  split; [exact H|].
  exact (proj2 (proj2 (DiscoverPeers_errors Resource LastUpdated FromJSON "crowdllama-ns"
                         host_NewStream network_SetReadDeadline network_Close no_providers))
           (world []) H).
Defined.

(** C3, as stated, fails: without a peer manager (a nil interface) the
    failed fetch of peerDown is not reported to anyone. *)
Lemma processProvider_nil_manager_no_mark :
  ~ (forall (provider : AddrInfo) (w : World (list string)),
       skipped provider w = false ->
       fetch_failure Resource FromJSON
         (snd (host_NewStream (dial_world provider w) (ID provider))) = true ->
       fst (processProvider provider w) = None /\
       In (CallMarkPeerAsRecentlyRemoved (ID provider))
          (trace (snd (processProvider provider w)))).
Proof.
  intros H.
  destruct (H (peer "peerDown") world_without_manager) as [_ Hin];
    [reflexivity | reflexivity |].
  vm_compute in Hin.
  repeat (destruct Hin as [Hin|Hin]; [discriminate Hin|]).
  exact Hin.
Qed.

(** peerEmpty ends its stream with nothing sent: the fetch fails and the
    peer is marked. *)
Lemma processProvider_fetch_failure_witness :
  skipped (peer "peerEmpty") (world []) = false /\
  fetch_failure Resource FromJSON
    (snd (host_NewStream (dial_world (peer "peerEmpty") (world [])) "peerEmpty")) = true /\
  fst (processProvider (peer "peerEmpty") (world [])) = None /\
  last (trace (snd (processProvider (peer "peerEmpty") (world []))))
  = Some (CallMarkPeerAsRecentlyRemoved "peerEmpty") /\
  peerManager (snd (processProvider (peer "peerEmpty") (world []))) = Some ["peerEmpty"].
Proof.
  assert (H1 : skipped (peer "peerEmpty") (world []) = false) by reflexivity.
  assert (H2 : fetch_failure Resource FromJSON
                 (snd (host_NewStream (dial_world (peer "peerEmpty") (world []))
                         (ID (peer "peerEmpty")))) = true) by reflexivity.
  pose proof (processProvider_fetch_failure Resource LastUpdated FromJSON host_NewStream
                network_SetReadDeadline network_Close
                (peer "peerEmpty") (world []) H1 H2) as T.
  cbv zeta in T. destruct T as (T1 & _ & T3).
  destruct (T3 [] eq_refl) as [T4 T5].
  exact (conj H1 (conj H2 (conj T1 (conj T4 T5)))).
Defined.

Lemma processProvider_skips_unhealthy_witness :
  peerManager (world ["peerA"]) = Some ["peerA"] /\
  fst (IsPeerUnhealthy ["peerA"] "peerA") = true /\
  fst (processProvider (peer "peerA") (world ["peerA"])) = None /\
  trace (snd (processProvider (peer "peerA") (world ["peerA"])))
  = [Log Debug "Found peer provider" "peerA";
     CallIsPeerUnhealthy "peerA";
     Log Debug "Skipping peer that is already marked as unhealthy" "peerA"].
Proof.
  assert (H1 : peerManager (world ["peerA"]) = Some ["peerA"]) by reflexivity.
  assert (H2 : fst (IsPeerUnhealthy ["peerA"] (ID (peer "peerA"))) = true) by reflexivity.
  pose proof (processProvider_skips_unhealthy Resource LastUpdated FromJSON host_NewStream
                network_SetReadDeadline network_Close
                (peer "peerA") (world ["peerA"]) ["peerA"] H1 H2) as T.
  cbv zeta in T. destruct T as (T1 & T2 & _).
  exact (conj H1 (conj H2 (conj T1 T2))).
Defined.


(** The batch over [providers] dials the five candidates, one after the
    other, closes the four streams that opened (peerDown cannot be dialed)
    and marks the four peers whose fetch failed. *)
Example DiscoverPeers_providers_calls :
  let w' := snd (DiscoverPeers providers (world [])) in
  count_events is_dial (trace w') = 5%nat /\
  count_events is_close (trace w') = 4%nat /\
  count_events is_mark (trace w') = 4%nat /\
  500 * Millisecond <= now w' - now (world []).
Proof. vm_compute. repeat split; discriminate. Qed.

(** In test mode the ticker of [AdvertiseModel] has a period of two
    seconds; a namespace that is not the text of a CID is never
    advertised. *)
Definition cid_Parse (namespace : string) : list Z + error :=
  inr (Err "invalid cid: selected encoding not supported").

Definition kadDHT_Provide (trace : list AdvertiseEvent) (key : list Z) : option error := None.

Example AdvertiseModel_namespace_not_a_CID :
  AdvertiseModel cid_Parse kadDHT_Provide
    (GetAdvertiseInterval (SetTestMode advertiseInterval_init))
    [ticker_C; ticker_C; ctx_Done; ticker_C] "crowdllama-ns"
  = Some (true, [NewTicker (2 * Second);
                 LogDebug "Failed to parse namespace as CID";
                 LogDebug "Failed to parse namespace as CID";
                 ticker_Stop]).
Proof. reflexivity. Qed.


End Sample.

End discovery.

(** ** The DHT server, continued: construction, start and queries
    ([pkg/dht/dht.go]) *)

Module server.
Import golang dht.
Import discovery (error, Err, Wrap, Error, len, Level, Debug, Info, Warn, ErrorLevel, AddrInfo, ID).

Definition DefaultListenAddrs : list string :=
  ["/ip4/0.0.0.0/tcp/9000"; "/ip4/0.0.0.0/udp/9000/quic-v1"].

(** What the server reads of its [host.Host]: [ID().String()] and the text
    of each of [Addrs()]. *)
Record host_Host := { Host_ID : string; Host_Addrs : list string }.

(** The loop of [generatePeerAddrs]. *)
Fixpoint generatePeerAddrs_range (hAddrs : list string) (hID : string) (addrs : list string)
    : list string :=
  match hAddrs with
  | [] => addrs
  | addr :: hAddrs =>
      let fullAddr := addr ++ "/p2p/" ++ hID in
      generatePeerAddrs_range hAddrs hID (addrs ++ [fullAddr])%list
  end.

Definition generatePeerAddrs (h : host_Host) : list string :=
  generatePeerAddrs_range (Host_Addrs h) (Host_ID h) [].

Lemma generatePeerAddrs_range_map hAddrs hID : forall addrs,
  generatePeerAddrs_range hAddrs hID addrs
  = (addrs ++ map (fun addr => (addr ++ "/p2p/" ++ hID)%string) hAddrs)%list.
Proof.
  induction hAddrs as [|addr rest IH]; intros addrs; cbn [generatePeerAddrs_range map].
  - rewrite app_nil_r. reflexivity.
  - rewrite IH, <- app_assoc. reflexivity.
Qed.

Lemma generatePeerAddrs_map h :
  generatePeerAddrs h = map (fun addr => addr ++ "/p2p/" ++ Host_ID h) (Host_Addrs h).
Proof. unfold generatePeerAddrs. apply generatePeerAddrs_range_map. Qed.

Lemma len_cons_pos {A} (a : A) (l : list A) : (0 <? len (a :: l)) = true.
Proof. apply Z.ltb_lt. unfold len. cbn [length]. lia. Qed.

Lemma append_not_empty (s t : string) : t <> "" -> s ++ t <> "".
Proof. destruct s; [exact (fun H => H)|discriminate]. Qed.

(** X11. [generatePeerAddrs] returns one address for each listen address of
    the host, in the same order: the listen address followed by [/p2p/] and
    the host's ID. None of them is the empty string. *)
Theorem generatePeerAddrs_spec (h : host_Host) :
  length (generatePeerAddrs h) = length (Host_Addrs h) /\
  (forall (i : nat) (addr : string),
     Host_Addrs h !! i = Some addr ->
     generatePeerAddrs h !! i = Some (addr ++ "/p2p/" ++ Host_ID h)) /\
  (forall fullAddr : string,
     In fullAddr (generatePeerAddrs h) ->
     fullAddr <> "" /\
     exists addr, In addr (Host_Addrs h) /\ fullAddr = addr ++ "/p2p/" ++ Host_ID h).
Proof.
  rewrite generatePeerAddrs_map. split; [apply length_map|]. split.
  - intros i addr Hi. rewrite list_lookup_fmap, Hi. reflexivity.
  - intros fullAddr Hin. apply in_map_iff in Hin as (addr & <- & Hin). split.
    + apply append_not_empty. discriminate.
    + exists addr. auto.
Qed.


(** A log entry with its zap fields. *)
Inductive Field :=
| zap_String (key val : string)
| zap_Int (key : string) (val : Z)
| zap_Bool (key : string) (val : bool).

Record Entry := { level : Level; msg : string; fields : list Field }.

(** The two [network.NotifyBundle]s of the server: the one
    [NewDHTServerWithAddrs] registers, with the methods
    [handlePeerConnected] and [handlePeerDisconnected], and the one of
    [Start], with its four closures. *)
Inductive NotifyBundle := server_handlers | Start_closures.

Definition bundle_DisconnectedF (b : NotifyBundle) : DisconnectedF :=
  match b with
  | server_handlers => server_handlePeerDisconnected
  | Start_closures => Start_DisconnectedF
  end.

(** What the constructor and [Start] do to their surroundings, in order. *)
Inductive Call :=
| cancel
| Network_Notify (bundle : NotifyBundle)
| logger (entry : Entry)
| peerManager_Start
| go_startPeriodicLogging
| DHT_Bootstrap (result : option error).

Section Build.

(** libp2p, the DHT package and the peer manager: key and handle types,
    the constructors, and the environment variable the server reads. *)
Variables PrivKey IpfsDHT Manager : Type.

Inductive libp2p_Option :=
| Identity (privKey : PrivKey)
| ListenAddrStrings (listenAddrs : list string)
| DefaultTransports
| DefaultMuxers
| DefaultSecurity
| NATPortMap.

Variable libp2p_New : list libp2p_Option -> host_Host + error.
Variable dht_New : host_Host -> IpfsDHT + error.
Variable peermanager_NewManager : host_Host -> IpfsDHT -> Config -> Manager.
Variable peermanager_DefaultConfig : Config.
Variable CROWDLLAMA_TEST_MODE : string.
Variable kadDHT_Bootstrap : IpfsDHT -> option error.

Record Server := {
  Host : host_Host;
  DHT : IpfsDHT;
  peerManager : Manager;
  peerAddrs : list string
}.

Definition createLibp2pHost (privKey : PrivKey) (listenAddrs : list string) : host_Host + error :=
  let libp2pOpts :=
    [Identity privKey; ListenAddrStrings listenAddrs;
     DefaultTransports; DefaultMuxers; DefaultSecurity; NATPortMap] in
  match libp2p_New libp2pOpts with
  | inr err => inr (Wrap "failed to create libp2p host" err)
  | inl h => inl h
  end.

Definition createDHT (h : host_Host) : IpfsDHT + error :=
  match dht_New h with
  | inr err => inr (Wrap "failed to create DHT" err)
  | inl dhtInstance => inl dhtInstance
  end.

(** [NewDHTServerWithAddrs]: the server or the error, and the calls made
    on the way. *)
Definition NewDHTServerWithAddrs (privKey : PrivKey) (listenAddrs : list string)
    : (option Server * option error) * list Call :=
  let listenAddrs := if len listenAddrs =? 0 then DefaultListenAddrs else listenAddrs in
  match createLibp2pHost privKey listenAddrs with
  | inr err => ((None, Some (Wrap "create libp2p host" err)), [cancel])
  | inl h =>
      match createDHT h with
      | inr err => ((None, Some (Wrap "create DHT" err)), [cancel])
      | inl kadDHT =>
          let peerConfig := getPeerManagerConfig CROWDLLAMA_TEST_MODE peermanager_DefaultConfig in
          let server :=
            {| Host := h; DHT := kadDHT;
               peerManager := peermanager_NewManager h kadDHT peerConfig;
               peerAddrs := generatePeerAddrs h |} in
          ((Some server, None),
           ((if len (peerAddrs server) =? 0
             then [logger {| level := Warn;
                             msg := "No peer addresses generated, this may indicate a configuration issue";
                             fields := [] |}]
             else [])
            ++ [Network_Notify server_handlers])%list)
      end
  end.

Definition NewDHTServer (privKey : PrivKey) : (option Server * option error) * list Call :=
  NewDHTServerWithAddrs privKey DefaultListenAddrs.

(** [Start]: the primary address or the error, and the calls made. *)
Definition Start (s : Server) : (string * option error) * list Call :=
  let result := kadDHT_Bootstrap (DHT s) in
  let calls :=
    [Network_Notify Start_closures; peerManager_Start; go_startPeriodicLogging;
     logger {| level := Info; msg := "Bootstrapping DHT network"; fields := [] |};
     DHT_Bootstrap result] in
  match result with
  | Some err => (("", Some (Wrap "failed to bootstrap DHT" err)), calls)
  | None =>
      if 0 <? len (peerAddrs s)
      then ((default "" (peerAddrs s !! 0%nat), None), calls)
      else (("", Some (Err "no peer addresses available")), calls)
  end.

Definition GetPeerAddrs (s : Server) : list string := peerAddrs s.

Definition GetPrimaryPeerAddr (s : Server) : string :=
  if 0 <? len (peerAddrs s) then default "" (peerAddrs s !! 0%nat) else "".

(** The bundles registered by a sequence of calls. *)
Definition notified (calls : list Call) : list NotifyBundle :=
  omap (fun c => match c with Network_Notify b => Some b | _ => None end) calls.

Lemma NewDHTServerWithAddrs_cases privKey listenAddrs :
  (exists err, NewDHTServerWithAddrs privKey listenAddrs = ((None, Some err), [cancel])) \/
  (exists s warning,
     NewDHTServerWithAddrs privKey listenAddrs
     = ((Some s, None), warning ++ [Network_Notify server_handlers])%list /\
     peerAddrs s = generatePeerAddrs (Host s) /\
     (warning = [] \/ exists entry, warning = [logger entry])).
Proof.
  unfold NewDHTServerWithAddrs. cbv zeta.
  destruct (createLibp2pHost _ _) as [h|err]; [|left; eauto].
  destruct (createDHT h) as [kadDHT|err]; [|left; eauto].
  right. eexists _, _. split; [reflexivity|]. split; [reflexivity|].
  cbn [peerAddrs]. destruct (len (generatePeerAddrs h) =? 0); eauto.
Qed.

(** X12. [NewDHTServerWithAddrs] returns either a server or an error, never
    both and never neither. It cancels the context it derived exactly when
    it returns an error, and registers its connection handlers with the
    host exactly when it returns a server; the addresses that server
    reports are those of [generatePeerAddrs]. With no listen address given
    it behaves as [NewDHTServer]. *)
Theorem NewDHTServerWithAddrs_outcome (privKey : PrivKey) (listenAddrs : list string) :
  let r := NewDHTServerWithAddrs privKey listenAddrs in
  NewDHTServerWithAddrs privKey [] = NewDHTServer privKey /\
  (fst (fst r) = None <-> snd (fst r) <> None) /\
  (In cancel (snd r) <-> snd (fst r) <> None) /\
  (notified (snd r) = match snd (fst r) with Some _ => [] | None => [server_handlers] end) /\
  (forall s, fst (fst r) = Some s ->
     GetPeerAddrs s
     = map (fun addr => addr ++ "/p2p/" ++ Host_ID (Host s)) (Host_Addrs (Host s))).
Proof.
  cbv zeta. split; [reflexivity|].
  destruct (NewDHTServerWithAddrs_cases privKey listenAddrs)
    as [[err ->]|(s & warning & -> & Haddrs & Hw)]; cbn [fst snd].
  - repeat split; try discriminate; auto. cbn. auto.
  - repeat split; try discriminate; try congruence.
    + intros Hin. apply in_app_or in Hin as [Hin|[Hin|[]]]; [|discriminate Hin].
      destruct Hw as [->|[entry ->]]; [destruct Hin|].
      destruct Hin as [Hin|[]]. discriminate Hin.
    + unfold notified. rewrite omap_app.
      destruct Hw as [->|[entry ->]]; reflexivity.
    + intros s' [= <-]. unfold GetPeerAddrs. rewrite Haddrs. apply generatePeerAddrs_map.
Qed.

(** X13. On a server that [NewDHTServerWithAddrs] built, [Start] fails when
    the DHT bootstrap fails, wrapping its error, or when the host had no
    listen address; otherwise it returns the host's first listen address
    followed by [/p2p/] and the host's ID, which is what
    [GetPrimaryPeerAddr] returns. On every path it has by then registered
    its notifier, started the peer manager and launched the logging
    goroutine: together with the constructor's, the host holds two
    disconnect handlers. *)
Theorem Start_outcome (privKey : PrivKey) (listenAddrs : list string) (s : Server) :
  fst (fst (NewDHTServerWithAddrs privKey listenAddrs)) = Some s ->
  let h := Host s in
  fst (Start s)
  = match kadDHT_Bootstrap (DHT s) with
    | Some err => ("", Some (Wrap "failed to bootstrap DHT" err))
    | None =>
        match Host_Addrs h with
        | [] => ("", Some (Err "no peer addresses available"))
        | addr :: _ => (addr ++ "/p2p/" ++ Host_ID h, None)
        end
    end /\
  (snd (fst (Start s)) = None ->
   fst (fst (Start s)) = GetPrimaryPeerAddr s /\ GetPrimaryPeerAddr s <> "") /\
  (GetPrimaryPeerAddr s = "" <-> Host_Addrs h = []) /\
  (exists rest,
     snd (Start s)
     = [Network_Notify Start_closures; peerManager_Start; go_startPeriodicLogging] ++ rest)%list /\
  map bundle_DisconnectedF (notified (snd (NewDHTServerWithAddrs privKey listenAddrs)))
  = registered false /\
  map bundle_DisconnectedF
    (notified (snd (NewDHTServerWithAddrs privKey listenAddrs) ++ snd (Start s)))
  = registered true.
Proof.
  intros Hs. cbv zeta.
  destruct (NewDHTServerWithAddrs_cases privKey listenAddrs)
    as [[err E]|(s' & warning & E & Haddrs & Hw)]; rewrite E in Hs |- *; cbn [fst snd] in *;
    [discriminate Hs|].
  injection Hs as ->.
  rewrite generatePeerAddrs_map in Haddrs.
  unfold Start, GetPrimaryPeerAddr. cbv zeta. rewrite Haddrs.
  assert (Hnotified : notified (warning ++ [Network_Notify server_handlers]) = [server_handlers]).
  { unfold notified. rewrite omap_app. destruct Hw as [->|[entry ->]]; reflexivity. }
  destruct (Host_Addrs (Host s)) as [|addr rest] eqn:Ea; cbn [map].
  - replace (0 <? len (@nil string)) with false by reflexivity.
    repeat split.
    + destruct (kadDHT_Bootstrap _); reflexivity.
    + destruct (kadDHT_Bootstrap _); cbn in H; discriminate H.
    + destruct (kadDHT_Bootstrap _); cbn in H; discriminate H.
    + destruct (kadDHT_Bootstrap _); eexists; reflexivity.
    + rewrite Hnotified. reflexivity.
    + unfold notified in *. rewrite omap_app, Hnotified.
      destruct (kadDHT_Bootstrap _); reflexivity.
  - rewrite len_cons_pos.
    cbn [lookup list_lookup default].
    assert (Hne : addr ++ "/p2p/" ++ Host_ID (Host s) <> "")
      by (apply append_not_empty; discriminate).
    repeat split.
    + destruct (kadDHT_Bootstrap _); reflexivity.
    + destruct (kadDHT_Bootstrap _); cbn in H |- *; [discriminate H|reflexivity].
    + exact Hne.
    + intros H. contradiction.
    + discriminate.
    + destruct (kadDHT_Bootstrap _); eexists; reflexivity.
    + rewrite Hnotified. reflexivity.
    + unfold notified in *. rewrite omap_app, Hnotified.
      destruct (kadDHT_Bootstrap _); reflexivity.
Qed.


End Build.

(** *** Queries on the connected peers

    [peers] is what [s.Host.Network().Peers()] returned, each ID in text
    form; [providers] what the channel of [s.DHT.FindProvidersAsync]
    yields. *)

Fixpoint GetPeers_range (peers : list string) (peerIDs : list string) : list string :=
  match peers with
  | [] => peerIDs
  | p :: peers => GetPeers_range peers (peerIDs ++ [p])%list
  end.

Definition GetPeers (peers : list string) : list string := GetPeers_range peers [].

Fixpoint HasPeer (peers : list string) (peerID : string) : bool :=
  match peers with
  | [] => false
  | p :: peers => if String.eqb p peerID then true else HasPeer peers peerID
  end.

Definition GetConnectedPeersCount (peers : list string) : Z := len peers.

(** [CheckProvider]: the answer, and the providers left unread in the
    channel when it returns. *)
Fixpoint CheckProvider (providers : list AddrInfo) (peerID : string) : bool * list AddrInfo :=
  match providers with
  | [] => (false, [])
  | provider :: providers =>
      if String.eqb (ID provider) peerID then (true, providers)
      else CheckProvider providers peerID
  end.

(** *** Logging *)

(** [LogNATStatus]: each [stats[key].(int)] panics on a key that is not in
    the map. *)
Definition LogNATStatus (connections : list Conn) : option Entry :=
  stats ← GetNATStatus connections;
  total ← stats !! "total_connections";
  direct ← stats !! "direct_connections";
  relay ← stats !! "relay_connections";
  hole_punched ← stats !! "hole_punched_connections";
  local ← stats !! "local_connections";
  external ← stats !! "external_connections";
  Some {| level := Debug; msg := "NAT traversal statistics";
          fields := [zap_Int "total_connections" total;
                     zap_Int "direct_connections" direct;
                     zap_Int "relay_connections" relay;
                     zap_Int "hole_punched_connections" hole_punched;
                     zap_Int "local_connections" local;
                     zap_Int "external_connections" external] |}.

Section PeerStats.

(** [peermanager.PeerInfo] with its [Metadata] field, a
    [*crowdllama.Resource] ([None] when nil), and the [WorkerMode] field of
    a Resource. *)
Variables PeerInfo Resource : Type.
Variable Metadata : PeerInfo -> option Resource.
Variable WorkerMode : Resource -> bool.

(** The body of the loop of [LogPeerStats] on the counters
    [(workerPeers, consumerPeers)]; a nil [*PeerInfo] in the map makes the
    field access panic. *)
Definition LogPeerStats_body (peerInfo : option PeerInfo) (counters : Z * Z) : option (Z * Z) :=
  let (workerPeers, consumerPeers) := counters in
  peerInfo ← peerInfo;
  match Metadata peerInfo with
  | Some metadata =>
      if WorkerMode metadata
      then Some (int_add workerPeers 1, consumerPeers)
      else Some (workerPeers, int_add consumerPeers 1)
  | None => Some (workerPeers, consumerPeers)
  end.

Fixpoint LogPeerStats_range (healthyPeers : list (string * option PeerInfo)) (counters : Z * Z)
    : option (Z * Z) :=
  match healthyPeers with
  | [] => Some counters
  | (_, peerInfo) :: healthyPeers =>
      counters ← LogPeerStats_body peerInfo counters;
      LogPeerStats_range healthyPeers counters
  end.

(** [LogPeerStats], on the entries of the map of healthy peers in the order
    in which [range] visits them. *)
Definition LogPeerStats (healthyPeers : list (string * option PeerInfo)) : option Entry :=
  let totalPeers := len healthyPeers in
  '(workerPeers, consumerPeers) ← LogPeerStats_range healthyPeers (0, 0);
  Some {| level := Info; msg := "Peer statistics";
          fields := [zap_Int "total_peers" totalPeers;
                     zap_Int "worker_peers" workerPeers;
                     zap_Int "consumer_peers" consumerPeers] |}.

(** Whether an entry is a peer with metadata in worker mode, or one with
    metadata that is not. *)
Definition is_worker (entry : string * option PeerInfo) : bool :=
  match snd entry with
  | Some peerInfo =>
      match Metadata peerInfo with
      | Some metadata => WorkerMode metadata
      | None => false
      end
  | None => false
  end.

Definition is_consumer (entry : string * option PeerInfo) : bool :=
  match snd entry with
  | Some peerInfo =>
      match Metadata peerInfo with
      | Some metadata => negb (WorkerMode metadata)
      | None => false
      end
  | None => false
  end.

Definition is_nil (entry : string * option PeerInfo) : bool :=
  match snd entry with Some _ => false | None => true end.

Definition count (f : string * option PeerInfo -> bool) (l : list (string * option PeerInfo)) : Z :=
  len (List.filter f l).

Lemma count_cons f entry l : count f (entry :: l) = (if f entry then 1 else 0) + count f l.
Proof. unfold count, len. cbn [List.filter]. destruct (f entry); cbn [length]; lia. Qed.

Lemma count_bounds f l : 0 <= count f l <= len l.
Proof.
  induction l as [|entry l IH]; [unfold count, len; cbn; lia|].
  rewrite count_cons. unfold len in *. cbn [length]. destruct (f entry); lia.
Qed.

Lemma count_Permutation f l l' : Permutation l l' -> count f l = count f l'.
Proof.
  intros H. induction H as [|x l l' H IH|x y l|l l' l'' H1 IH1 H2 IH2].
  - reflexivity.
  - rewrite !count_cons, IH. reflexivity.
  - rewrite !count_cons. lia.
  - congruence.
Qed.

Lemma LogPeerStats_range_counts healthyPeers : forall w c,
  0 <= w -> 0 <= c -> w + len healthyPeers <= int_max -> c + len healthyPeers <= int_max ->
  LogPeerStats_range healthyPeers (w, c)
  = if 0 <? count is_nil healthyPeers then None
    else Some (w + count is_worker healthyPeers, c + count is_consumer healthyPeers).
Proof.
  induction healthyPeers as [|[k peerInfo] rest IH]; intros w c Hw Hc Bw Bc.
  - cbn. rewrite !Z.add_0_r. reflexivity.
  - cbn [LogPeerStats_range]. rewrite !count_cons.
    pose proof (count_bounds is_nil rest) as Hn.
    unfold len in Bw, Bc. cbn [length] in Bw, Bc. fold (len rest) in Bw, Bc.
    assert (Hadd : forall x, 0 <= x -> x + Z.of_nat (S (length rest)) <= int_max ->
                             int_add x 1 = x + 1).
    { intros x H0 H1. apply int_add_exact. unfold in_int, int_min, int_max in *. lia. }
    unfold is_nil at 1, is_worker at 1, is_consumer at 1. cbn [snd].
    destruct peerInfo as [peerInfo|]; cbn [LogPeerStats_body mbind option_bind].
    2: { destruct (0 <? 1 + count is_nil rest) eqn:E; [reflexivity|]. apply Z.ltb_ge in E. lia. }
    destruct (Metadata peerInfo) as [metadata|];
      [destruct (WorkerMode metadata)|];
      cbn [negb mbind option_bind]; rewrite ?Hadd by assumption;
      rewrite IH by (unfold len; lia); rewrite ?Z.add_0_l;
      destruct (0 <? count is_nil rest); try reflexivity; do 2 f_equal; lia.
Qed.

(** X14. [LogPeerStats] panics exactly when the map of healthy peers holds a
    nil entry. Otherwise it logs the size of the map, the number of peers
    whose metadata is in worker mode and the number of those whose metadata
    is not; peers without metadata are in neither, so the two add up to at
    most the total. The outcome does not depend on the order in which the
    map is visited. *)
Theorem LogPeerStats_counts (healthyPeers : list (string * option PeerInfo)) :
  len healthyPeers <= int_max ->
  (LogPeerStats healthyPeers = None <->
   exists key, In (key, None) healthyPeers) /\
  (forall entry, LogPeerStats healthyPeers = Some entry ->
     entry = {| level := Info; msg := "Peer statistics";
                fields := [zap_Int "total_peers" (len healthyPeers);
                           zap_Int "worker_peers" (count is_worker healthyPeers);
                           zap_Int "consumer_peers" (count is_consumer healthyPeers)] |}) /\
  count is_worker healthyPeers + count is_consumer healthyPeers <= len healthyPeers /\
  (forall visited, Permutation healthyPeers visited ->
     LogPeerStats visited = LogPeerStats healthyPeers).
Proof.
  intros Hlen.
  assert (E : forall l, len l <= int_max ->
            LogPeerStats l
            = if 0 <? count is_nil l then None
              else Some {| level := Info; msg := "Peer statistics";
                           fields := [zap_Int "total_peers" (len l);
                                      zap_Int "worker_peers" (count is_worker l);
                                      zap_Int "consumer_peers" (count is_consumer l)] |}).
  { intros l Hl. unfold LogPeerStats. cbv zeta.
    rewrite LogPeerStats_range_counts by (unfold int_max in *; lia).
    destruct (0 <? count is_nil l); reflexivity. }
  assert (Hnil : forall l, 0 < count is_nil l <-> exists key, In (key, None) l).
  { intros l. induction l as [|[k pi] rest IH]; [unfold count, len; cbn; split; [lia|intros [? []]]|].
    rewrite count_cons. pose proof (count_bounds is_nil rest) as Hb.
    unfold is_nil at 1. cbn [snd]. destruct pi as [pi|].
    - rewrite Z.add_0_l, IH. split; intros [key H]; exists key; [right; exact H|].
      destruct H as [H|H]; [discriminate H|exact H].
    - split; [intros _; exists k; left; reflexivity | lia]. }
  repeat split.
  - rewrite E by exact Hlen. destruct (0 <? count is_nil healthyPeers) eqn:En; [|discriminate].
    intros _. apply Hnil. apply Z.ltb_lt. exact En.
  - intros H. apply Hnil in H. rewrite E by exact Hlen.
    apply Z.ltb_lt in H. rewrite H. reflexivity.
  - intros entry. rewrite E by exact Hlen.
    destruct (0 <? count is_nil healthyPeers); [discriminate|]. intros [= <-]. reflexivity.
  - clear. induction healthyPeers as [|[k pi] rest IH]; [unfold count, len; cbn; lia|].
    rewrite !count_cons. unfold len in *. cbn [length].
    unfold is_worker at 1, is_consumer at 1. cbn [snd].
    destruct pi as [pi|]; [destruct (Metadata pi) as [md|]; [destruct (WorkerMode md)|]|];
      cbn [negb]; lia.
  - intros visited Hp.
    assert (Hl : len visited = len healthyPeers).
    { unfold len. f_equal. symmetry. apply Permutation_length. exact Hp. }
    rewrite !E by lia. rewrite Hl, !(count_Permutation _ _ _ Hp). reflexivity.
Qed.


End PeerStats.

(** *** Connection handlers

    [Protocols] holds the names of [conn.RemoteMultiaddr().Protocols()];
    indexing its first element panics when there is none. *)

Definition New_peer_connected (conn : Conn) (transport : string) : Entry :=
  let peerID := RemotePeer conn in
  let remoteAddr := RemoteMultiaddr conn in
  let direction := Direction_String (Stat_Direction conn) in
  {| level := Debug; msg := "New peer connected";
     fields := [zap_String "peer_id" peerID;
                zap_String "remote_addr" remoteAddr;
                zap_String "direction" direction;
                zap_String "transport" transport;
                zap_Bool "is_relay" (Contains remoteAddr "/p2p-circuit/");
                zap_Bool "is_hole_punched" (isHolePunchedConnection remoteAddr direction)] |}.

Definition handlePeerConnected (conn : Conn) (Protocols : list string) : option (list Entry) :=
  let peerID := RemotePeer conn in
  let remoteAddr := RemoteMultiaddr conn in
  transport ← Protocols !! 0%nat;
  let log := [New_peer_connected conn transport] in
  if negb (Contains remoteAddr "/p2p-circuit/")
  then Some (log ++ [{| level := Debug; msg := "Direct connection established (no NAT)";
                        fields := [zap_String "peer_id" peerID;
                                   zap_String "direct_addr" remoteAddr] |}])%list
  else Some log.

(** The [ConnectedF] closure of [Start]. *)
Definition Start_ConnectedF (conn : Conn) (Protocols : list string) : option (list Entry) :=
  let peerID := RemotePeer conn in
  let remoteAddr := RemoteMultiaddr conn in
  let direction := Direction_String (Stat_Direction conn) in
  transport ← Protocols !! 0%nat;
  let log := [New_peer_connected conn transport] in
  if isRelayConnection remoteAddr
  then Some (log ++ [{| level := Debug; msg := "Connection established via relay (NAT traversal)";
                        fields := [zap_String "peer_id" peerID;
                                   zap_String "relay_addr" remoteAddr] |}])%list
  else if isHolePunchedConnection remoteAddr direction
  then Some (log ++ [{| level := Debug;
                        msg := "Direct connection established (hole punching successful)";
                        fields := [zap_String "peer_id" peerID;
                                   zap_String "direct_addr" remoteAddr] |}])%list
  else Some (log ++ [{| level := Debug; msg := "Direct connection established (no NAT)";
                        fields := [zap_String "peer_id" peerID;
                                   zap_String "direct_addr" remoteAddr] |}])%list.



(** *** Properties of the queries and of the logging *)

Lemma GetPeers_range_app peers : forall peerIDs,
  GetPeers_range peers peerIDs = (peerIDs ++ peers)%list.
Proof.
  induction peers as [|p rest IH]; intros peerIDs; cbn [GetPeers_range].
  - rewrite app_nil_r. reflexivity.
  - rewrite IH, <- app_assoc. reflexivity.
Qed.

(** X15. On one snapshot of the host's peers, the three queries agree:
    [GetPeers] lists every connected peer once per entry and in order,
    [HasPeer] answers true exactly for the IDs in that list, and
    [GetConnectedPeersCount] is its length. *)
Theorem HasPeer_GetPeers (peers : list string) (peerID : string) :
  GetPeers peers = peers /\
  (HasPeer peers peerID = true <-> In peerID (GetPeers peers)) /\
  GetConnectedPeersCount peers = len (GetPeers peers).
Proof.
  assert (E : GetPeers peers = peers) by apply GetPeers_range_app.
  rewrite E. repeat split.
  - induction peers as [|p rest IH]; cbn [HasPeer]; [discriminate|].
    destruct (String.eqb_spec p peerID) as [->|Hne]; [left; reflexivity|].
    intros H. right. apply IH; [apply GetPeers_range_app|exact H].
  - induction peers as [|p rest IH]; cbn [HasPeer In]; [contradiction|].
    destruct (String.eqb_spec p peerID) as [->|Hne]; [reflexivity|].
    intros [H|H]; [contradiction|]. apply IH; [apply GetPeers_range_app|exact H].
Qed.

(** X16. [CheckProvider] answers true exactly when the queried peer is among
    the providers that the query yields. It stops at the first match: the
    providers before it are all different from the peer, and those after it
    are left unread; a negative answer has read them all. *)
Theorem CheckProvider_first_match (providers : list AddrInfo) (peerID : string) :
  let found := fst (CheckProvider providers peerID) in
  let unread := snd (CheckProvider providers peerID) in
  (found = true <-> exists provider, In provider providers /\ ID provider = peerID) /\
  (found = true ->
   exists read provider,
     providers = (read ++ provider :: unread)%list /\ ID provider = peerID /\
     Forall (fun p => ID p <> peerID) read) /\
  (found = false -> unread = []).
Proof.
  cbv zeta. induction providers as [|p rest IH]; cbn [CheckProvider].
  - cbn. repeat split; try discriminate. intros (? & [] & _).
  - destruct (String.eqb_spec (ID p) peerID) as [E|Hne]; cbn [fst snd].
    + repeat split; try discriminate.
      * intros _. exists p. split; [left; reflexivity|exact E].
      * intros _. exists [], p. repeat split; [exact E|constructor].
    + destruct IH as (IH1 & IH2 & IH3). repeat split.
      * intros H. apply IH1 in H as (q & Hin & Hq). exists q. split; [right; exact Hin|exact Hq].
      * intros (q & [<-|Hin] & Hq); [contradiction|]. apply IH1. eauto.
      * intros H. destruct (IH2 H) as (read & q & Hrest & Hq & Hread).
        exists (p :: read), q. split; [cbn [app]; f_equal; exact Hrest|].
        split; [exact Hq|constructor; assumption].
      * exact IH3.
Qed.

Lemma GetNATStatus_loop_shape connections : forall t d r h l e,
  exists d' r' h' l' e',
    GetNATStatus_loop connections (new_stats t d r h l e) = Some (new_stats t d' r' h' l' e').
Proof.
  induction connections as [|conn rest IH]; intros t d r h l e; cbn [GetNATStatus_loop].
  - eauto 10.
  - rewrite GetNATStatus_body_class. cbn [mbind option_bind].
    destruct (natClass conn); apply IH.
Qed.

(** X17. [LogNATStatus] never panics: whatever the connections, every key it
    reads from the map of [GetNATStatus] is there, and the total it logs is
    the number of connections. *)
Theorem LogNATStatus_never_panics (connections : list Conn) :
  exists direct relay hole_punched local external,
    LogNATStatus connections
    = Some {| level := Debug; msg := "NAT traversal statistics";
              fields := [zap_Int "total_connections" (len connections);
                         zap_Int "direct_connections" direct;
                         zap_Int "relay_connections" relay;
                         zap_Int "hole_punched_connections" hole_punched;
                         zap_Int "local_connections" local;
                         zap_Int "external_connections" external] |}.
Proof.
  unfold LogNATStatus, GetNATStatus. cbv zeta.
  destruct (GetNATStatus_loop_shape connections (Z.of_nat (length connections)) 0 0 0 0 0)
    as (d & r & h & l & e & ->).
  destruct (new_stats_lookups (Z.of_nat (length connections)) d r h l e)
    as (Lr & Lh & Ld & Ll & Le & Lt).
  exists d, r, h, l, e. cbn [mbind option_bind].
  rewrite Lt. cbn [mbind option_bind]. rewrite Ld. cbn [mbind option_bind].
  rewrite Lr. cbn [mbind option_bind]. rewrite Lh. cbn [mbind option_bind].
  rewrite Ll. cbn [mbind option_bind]. rewrite Le. reflexivity.
Qed.

(** X18. Both connection handlers log the same first entry and panic on a
    remote address without protocols. What [Start]'s closure says next
    follows the class that [GetNATStatus] counts the connection in, while
    [handlePeerConnected] calls every connection that is not relayed a
    direct connection without NAT, the hole-punched ones included. *)
Theorem ConnectedF_logs (conn : Conn) (Protocols : list string) :
  match Protocols with
  | [] => handlePeerConnected conn Protocols = None /\ Start_ConnectedF conn Protocols = None
  | transport :: _ =>
      exists said_by_handler said_by_Start,
        handlePeerConnected conn Protocols
        = Some (New_peer_connected conn transport :: said_by_handler) /\
        Start_ConnectedF conn Protocols
        = Some [New_peer_connected conn transport; said_by_Start] /\
        map msg said_by_handler
        = match natClass conn with
          | Relay => []
          | _ => ["Direct connection established (no NAT)"]
          end /\
        msg said_by_Start
        = match natClass conn with
          | Relay => "Connection established via relay (NAT traversal)"
          | HolePunched => "Direct connection established (hole punching successful)"
          | _ => "Direct connection established (no NAT)"
          end
  end.
Proof.
  destruct Protocols as [|transport rest]; [split; reflexivity|].
  unfold handlePeerConnected, Start_ConnectedF, natClass, isRelayConnection. cbv zeta.
  cbn [lookup list_lookup mbind option_bind].
  destruct (Contains (RemoteMultiaddr conn) "/p2p-circuit/") eqn:Er; cbn [negb].
  - eexists [], _. repeat split.
  - destruct (isHolePunchedConnection _ _).
    + eexists [_], _. repeat split.
    + destruct (isExternalIP _); eexists [_], _; repeat split.
Qed.


(** *** A server on one host, to run the constructor and [Start] on *)

Module SampleHost.

Definition host : host_Host :=
  {| Host_ID := "12D3KooWS";
     Host_Addrs := ["/ip4/192.0.2.1/tcp/9000"; "/ip4/192.0.2.1/udp/9000/quic-v1"] |}.

Definition libp2p_New (opts : list (libp2p_Option unit)) : host_Host + error := inl host.

Definition dht_New (h : host_Host) : unit + error := inl tt.

Definition peermanager_NewManager (h : host_Host) (kadDHT : unit) (cfg : Config) : Config := cfg.

Definition peermanager_DefaultConfig : Config :=
  {| DiscoveryInterval := 10 * Second; AdvertisingInterval := 30 * Second;
     MetadataUpdateInterval := 60 * Second;
     PeerHealth := {| StalePeerTimeout := 60 * Second; HealthCheckInterval := 20 * Second;
                      MaxFailedAttempts := 3; BackoffBase := 10 * Second;
                      MetadataTimeout := 5 * Second; MaxMetadataAge := 60 * Second |} |}.

Definition kadDHT_Bootstrap (kadDHT : unit) : option error := None.

Definition NewDHTServerWithAddrs :=
  server.NewDHTServerWithAddrs unit unit Config libp2p_New dht_New peermanager_NewManager
    peermanager_DefaultConfig "1".

Definition built : Server unit Config :=
  {| Host := host; DHT := tt;
     peerManager := getPeerManagerConfig "1" peermanager_DefaultConfig;
     peerAddrs := ["/ip4/192.0.2.1/tcp/9000/p2p/12D3KooWS";
                   "/ip4/192.0.2.1/udp/9000/quic-v1/p2p/12D3KooWS"] |}.

Lemma Start_outcome_witness :
  fst (fst (NewDHTServerWithAddrs tt [])) = Some built /\
  fst (Start unit Config kadDHT_Bootstrap built)
  = ("/ip4/192.0.2.1/tcp/9000/p2p/12D3KooWS", None).
Proof.
  assert (H : fst (fst (NewDHTServerWithAddrs tt [])) = Some built) by reflexivity.
  exact (conj H (proj1 (Start_outcome unit unit Config libp2p_New dht_New peermanager_NewManager
                          peermanager_DefaultConfig "1" kadDHT_Bootstrap tt [] built H))).
Defined.

(** Three healthy peers: a worker, a consumer, and one without metadata
    yet. A [PeerInfo] is just its metadata here, and a Resource its
    [WorkerMode]. *)
Definition healthyPeers : list (string * option (option bool)) :=
  [("12D3KooWA", Some (Some true)); ("12D3KooWB", Some (Some false)); ("12D3KooWC", Some None)].

Lemma LogPeerStats_counts_witness :
  len healthyPeers <= int_max /\
  forall entry,
    LogPeerStats (option bool) bool id id healthyPeers = Some entry ->
    entry = {| level := Info; msg := "Peer statistics";
               fields := [zap_Int "total_peers" (len healthyPeers);
                          zap_Int "worker_peers" (count (option bool) (is_worker (option bool) bool id id) healthyPeers);
                          zap_Int "consumer_peers" (count (option bool) (is_consumer (option bool) bool id id) healthyPeers)] |}.
Proof.
  assert (H : len healthyPeers <= int_max) by (vm_compute; discriminate).
  exact (conj H (proj1 (proj2 (LogPeerStats_counts (option bool) bool id id healthyPeers H)))).
Defined.

Example LogPeerStats_healthyPeers :
  LogPeerStats (option bool) bool id id healthyPeers
  = Some {| level := Info; msg := "Peer statistics";
            fields := [zap_Int "total_peers" 3; zap_Int "worker_peers" 1;
                       zap_Int "consumer_peers" 1] |}.
Proof. reflexivity. Qed.

End SampleHost.

End server.
